(** * Zendure manager: the power-balancing control loop

    A shallow embedding of [custom_components/zendure_ha/zendurermanager.py]
    (class [ZendureManager]) together with the Python built-ins it relies on,
    followed by the properties of the balancing loop. *)

From Stdlib Require Import ZArith List String Bool Lia QArith.
From Stdlib Require Import Sorting.Permutation Sorting.Sorted.
Import ListNotations.
Local Open Scope Z_scope.

(** ** Python exceptions and results *)

Inductive exn : Type :=
| TypeError
| ValueError
| OverflowError
| AttributeError
| NameError
| ZeroDivisionError.

Inductive result (A : Type) : Type :=
| Ok (a : A)
| Raise (e : exn).
Arguments Ok {A} a.
Arguments Raise {A} e.

Definition rbind {A B} (r : result A) (k : A -> result B) : result B :=
  match r with
  | Ok a => k a
  | Raise e => Raise e
  end.

(** ** Python numbers

    Sensor values are Python [int]s (unbounded, [Z]).  The code converts
    some of them with [float(..)] and divides with [/], both of which round
    to IEEE binary64, to nearest with ties to even.  A finite binary64 value
    is kept as a signed mantissa and an exponent: [mant * 2 ^ expo]. *)
Module PyNum.

Record float : Type := mkFloat { mant : Z; expo : Z }.

(** Greatest [L] with [2 ^ L <= a / n], for positive [a] and [n]. *)
Definition ilog2_ratio (a n : Z) : Z :=
  let d := Z.log2 a - Z.log2 n in
  if n * 2 ^ Z.max 0 d <=? a * 2 ^ Z.max 0 (- d) then d else d - 1.

(** Nearest integer to [num / den], ties to even ([0 <= num], [0 < den]). *)
Definition round_half_even (num den : Z) : Z :=
  let m := num / den in
  let r := num mod den in
  if 2 * r <? den then m
  else if den <? 2 * r then m + 1
  else if Z.even m then m else m + 1.

(** The binary64 nearest to [a / n] for positive [a] and [n]: 53
    significant bits, exponent no smaller than that of the subnormals,
    [None] when the rounded value does not fit. *)
Definition round_ratio (a n : Z) : option float :=
  let e := Z.max (ilog2_ratio a n - 52) (-1074) in
  let m := round_half_even (a * 2 ^ Z.max 0 (- e)) (n * 2 ^ Z.max 0 e) in
  if 2 ^ 1024 <=? m * 2 ^ Z.max 0 e then None else Some (mkFloat m e).

Definition fneg (f : float) : float := mkFloat (- mant f) (expo f).

(** [float(z)] for an [int] [z]. *)
Definition float_of_int (z : Z) : result float :=
  if z =? 0 then Ok (mkFloat 0 0)
  else match round_ratio (Z.abs z) 1 with
       | None => Raise OverflowError
       | Some f => Ok (if z <? 0 then fneg f else f)
       end.

(** [a / b] for [int]s [a] and [b] (true division). *)
Definition truediv (a b : Z) : result float :=
  if b =? 0 then Raise ZeroDivisionError
  else if a =? 0 then Ok (mkFloat 0 0)
  else match round_ratio (Z.abs a) (Z.abs b) with
       | None => Raise OverflowError
       | Some f => Ok (if xorb (a <? 0) (b <? 0) then fneg f else f)
       end.

(** [int(f)]: truncation toward zero. *)
Definition int_of_float (f : float) : Z :=
  Z.quot (mant f * 2 ^ Z.max 0 (expo f)) (2 ^ Z.max 0 (- expo f)).

(** [x < f] and [x > f] for an [int] [x] and a [float] [f]: Python
    compares the two exact values. *)
Definition int_lt_float (x : Z) (f : float) : bool :=
  x * 2 ^ Z.max 0 (- expo f) <? mant f * 2 ^ Z.max 0 (expo f).

Definition int_gt_float (x : Z) (f : float) : bool :=
  mant f * 2 ^ Z.max 0 (expo f) <? x * 2 ^ Z.max 0 (- expo f).

(** [f] has exactly the value [z]. *)
Definition represents (f : float) (z : Z) : Prop :=
  mant f * 2 ^ Z.max 0 (expo f) = z * 2 ^ Z.max 0 (- expo f).

End PyNum.

(** ** Devices *)

(** The [state] of a [ZendureSensor]: [update_value] stores [int(value)] for
    a sensor without template, and the state is [None] until the first value
    arrives. *)
Definition state : Type := option Z.

(** Modelled from the spec: the class [Hyper2000] ([hyper2000.py]) is not
    among the sources.  A device is its [sensors] dict, of which the manager
    reads the seven entries that the spec lists as DeviceState; all of them
    are unknown until the first inbound message for the device. *)
Record Hyper2000 : Type := mkHyper2000 {
  electricLevel : state;
  minSoc : state;
  socSet : state;
  inputLimit : state;
  outputLimit : state;
  gridInputPower : state;
  outputHomePower : state
}.

(** Devices are shared objects: the manager's dict and its two ranked lists
    hold references to them, and inbound messages change them in place.  A
    reference is the device id, the heap gives the object behind it. *)
Definition heap : Type := string -> Hyper2000.

(** ** The manager *)

Record ZendureManager : Type := mkManager {
  hypers : list string;            (* keys of [self.hypers], in dict order *)
  consumed : string;
  produced : string;
  next_update : Z;                 (* microseconds *)
  operation : Z;
  _hypers_charge : list string;
  _hypers_discharge : list string;
  _max_charge : Z;
  _max_discharge : Z
}.

Definition set_next_update (t : Z) (s : ZendureManager) : ZendureManager :=
  mkManager (hypers s) (consumed s) (produced s) t (operation s)
    (_hypers_charge s) (_hypers_discharge s) (_max_charge s) (_max_discharge s).

Definition set_operation (o : Z) (s : ZendureManager) : ZendureManager :=
  mkManager (hypers s) (consumed s) (produced s) (next_update s) o
    (_hypers_charge s) (_hypers_discharge s) (_max_charge s) (_max_discharge s).

Definition set_hypers_charge (l : list string) (s : ZendureManager) : ZendureManager :=
  mkManager (hypers s) (consumed s) (produced s) (next_update s) (operation s)
    l (_hypers_discharge s) (_max_charge s) (_max_discharge s).

Definition set_hypers_discharge (l : list string) (s : ZendureManager) : ZendureManager :=
  mkManager (hypers s) (consumed s) (produced s) (next_update s) (operation s)
    (_hypers_charge s) l (_max_charge s) (_max_discharge s).

Definition set_max_charge (z : Z) (s : ZendureManager) : ZendureManager :=
  mkManager (hypers s) (consumed s) (produced s) (next_update s) (operation s)
    (_hypers_charge s) (_hypers_discharge s) z (_max_discharge s).

Definition set_max_discharge (z : Z) (s : ZendureManager) : ZendureManager :=
  mkManager (hypers s) (consumed s) (produced s) (next_update s) (operation s)
    (_hypers_charge s) (_hypers_discharge s) (_max_charge s) z.

(** [timedelta(minutes=5)], in microseconds. *)
Definition five_minutes : Z := 300000000.

(** [ZendureManager.__init__]: the fields the loop uses. *)
Definition init (ids : list string) (consumed produced : string) (now : Z) : ZendureManager :=
  mkManager ids consumed produced (now + five_minutes) 0 [] [] 0 0.

(** ** Effects: log records and device commands *)

Inductive log_record : Type :=
| InfoValidCharging (n : nat) (limit : Z)
| InfoValidDischarging (n : nat) (limit : Z)
| InfoUpdateEnergy (power : Z)
| InfoCharging (charge : Z)
| InfoDischarging (discharge : Z)
| Error (e : exn).

Inductive effect : Type :=
| Log (r : log_record)
| Command (h : string) (chargetype chargepower dischargepower : Z).

(** A method: it may change the state it works on, emits effects in order
    and either returns or raises.  What was changed and emitted before an
    exception stays. *)
Definition M (S A : Type) : Type := S -> result A * S * list effect.

Definition ret {S A} (a : A) : M S A := fun s => (Ok a, s, []).

Definition bind {S A B} (m : M S A) (k : A -> M S B) : M S B := fun s =>
  match m s with
  | (Ok a, s1, w1) => let '(r, s2, w2) := k a s1 in (r, s2, w1 ++ w2)
  | (Raise e, s1, w1) => (Raise e, s1, w1)
  end.

Definition lift {S A} (r : result A) : M S A := fun s => (r, s, []).
Definition raise {S A} (e : exn) : M S A := lift (Raise e).
Definition get {S} : M S S := fun s => (Ok s, s, []).
Definition modify {S} (f : S -> S) : M S unit := fun s => (Ok tt, f s, []).
Definition emit {S} (x : effect) : M S unit := fun s => (Ok tt, s, [x]).

Definition try_except {S A} (body : M S A) (handler : exn -> M S A) : M S A := fun s =>
  match body s with
  | (Ok a, s1, w1) => (Ok a, s1, w1)
  | (Raise e, s1, w1) => let '(r, s2, w2) := handler e s1 in (r, s2, w1 ++ w2)
  end.

(** Methods of the manager that leave the devices alone. *)
Definition Method : Type -> Type := M ZendureManager.

Declare Scope py_scope.
Delimit Scope py_scope with py.
Notation "x <- c ;; k" := (bind c (fun x => k))
  (at level 61, c at next level, right associativity) : py_scope.
Notation "c ;; k" := (bind c (fun _ => k))
  (at level 61, right associativity) : py_scope.
Local Open Scope py_scope.

Fixpoint for_each {S A} (l : list A) (body : A -> M S unit) : M S unit :=
  match l with
  | [] => ret tt
  | x :: t => body x ;; for_each t body
  end.

(** Modelled from the spec: [Hyper2000.update_power] ([hyper2000.py]) is not
    among the sources.  [h.update_power(self._mqtt, chargetype, chargepower,
    dischargepower)] is the spec's [applyPower]: it publishes the three values
    as one command on the device's write topic, without validation. *)
Definition update_power {S} (h : string) (chargetype chargepower dischargepower : Z) : M S unit :=
  emit (Command h chargetype chargepower dischargepower).

Definition _LOGGER_info {S} (r : log_record) : M S unit := emit (Log r).
Definition _LOGGER_error {S} (e : exn) : M S unit := emit (Log (Error e)).

(** ** Ranking the fleet *)

(** Truth value of a list: [not l] holds for the empty list only. *)
Definition truthy {A} (l : list A) : bool :=
  match l with [] => false | _ :: _ => true end.

(** A sensor state used as a number; [None] in arithmetic or in an ordering
    comparison raises [TypeError]. *)
Definition known (v : state) : result Z :=
  match v with
  | Some z => Ok z
  | None => Raise TypeError
  end.

(** [x > float(y)]: [float(y)] is evaluated first, then the comparison. *)
Definition gt_float (x y : state) : result bool :=
  match y with
  | None => Raise TypeError
  | Some yv =>
      rbind (PyNum.float_of_int yv) (fun f =>
        match x with
        | None => Raise TypeError
        | Some xv => Ok (PyNum.int_gt_float xv f)
        end)
  end.

(** [x < float(y)]. *)
Definition lt_float (x y : state) : result bool :=
  match y with
  | None => Raise TypeError
  | Some yv =>
      rbind (PyNum.float_of_int yv) (fun f =>
        match x with
        | None => Raise TypeError
        | Some xv => Ok (PyNum.int_lt_float xv f)
        end)
  end.

(** [[x for x in l if p(x)]], stopping at the first exception. *)
Fixpoint filter_r {A} (p : A -> result bool) (l : list A) : result (list A) :=
  match l with
  | [] => Ok []
  | x :: t =>
      rbind (p x) (fun b =>
      rbind (filter_r p t) (fun t' => Ok (if b then x :: t' else t')))
  end.

Fixpoint map_r {A B} (f : A -> result B) (l : list A) : result (list B) :=
  match l with
  | [] => Ok []
  | x :: t => rbind (f x) (fun y => rbind (map_r f t) (fun t' => Ok (y :: t')))
  end.

(** [sorted] is stable: elements with equal keys keep their order, also with
    [reverse=True].  Insertion from the right puts an element before the
    first one it may precede. *)
Fixpoint insert_by {A} (before : Z -> Z -> bool) (x : Z * A) (l : list (Z * A))
  : list (Z * A) :=
  match l with
  | [] => [x]
  | y :: t => if before (fst x) (fst y) then x :: y :: t
              else y :: insert_by before x t
  end.

Fixpoint isort {A} (before : Z -> Z -> bool) (l : list (Z * A)) : list (Z * A) :=
  match l with
  | [] => []
  | x :: t => insert_by before x (isort before t)
  end.

(** [sorted(l, key=lambda h: key(h).state, reverse=reverse)].  Lists of
    fewer than two elements are returned without a comparison; otherwise
    every key takes part in one, which raises [TypeError] on [None]. *)
Definition sorted (sigma : heap) (key : Hyper2000 -> state) (reverse : bool)
  (l : list string) : result (list string) :=
  match l with
  | [] | [_] => Ok l
  | _ =>
      rbind (map_r (fun h => known (key (sigma h))) l) (fun ks =>
        Ok (map snd (isort (if reverse then Z.geb else Z.leb) (combine ks l))))
  end.

(** [sum(attr(h).state for h in l)]. *)
Fixpoint sum (sigma : heap) (attr : Hyper2000 -> state) (l : list string) : result Z :=
  match l with
  | [] => Ok 0
  | h :: t =>
      rbind (known (attr (sigma h))) (fun v =>
      rbind (sum sigma attr t) (fun r => Ok (v + r)))
  end.

(** ** Allocation *)

(** [int(total / len(l))]. *)
Definition int_div_len {A} (total : Z) (l : list A) : result Z :=
  rbind (PyNum.truediv total (Z.of_nat (List.length l)))
        (fun f => Ok (PyNum.int_of_float f)).

Definition upd_charging (charge : Z) : Method unit :=
  _LOGGER_info (InfoCharging charge) ;;
  s <- get ;;
  match _hypers_charge s with
  | [] => ret tt
  | h0 :: rest =>
      if charge <? 400 then
        update_power h0 1 charge 0 ;;
        if (1 <? Z.of_nat (List.length (_hypers_charge s)))
        then for_each rest (fun h => update_power h 0 0 0)
        else ret tt
      else
        for_each (_hypers_charge s) (fun h =>
          w <- lift (int_div_len charge (_hypers_charge s)) ;;
          update_power h 1 w 0)
  end.

Definition upd_discharging (discharge : Z) : Method unit :=
  _LOGGER_info (InfoDischarging discharge) ;;
  s <- get ;;
  match _hypers_discharge s with
  | [] => ret tt
  | h0 :: rest =>
      if discharge <? 400 then
        update_power h0 0 0 discharge ;;
        if (1 <? Z.of_nat (List.length (_hypers_discharge s)))
        then for_each rest (fun h => update_power h 0 0 0)
        else ret tt
      else
        for_each (_hypers_discharge s) (fun h =>
          w <- lift (int_div_len discharge (_hypers_discharge s)) ;;
          update_power h 0 0 w)
  end.

(** ** Mode changes *)

Definition update_operation (operation : Z) : Method unit :=
  modify (set_operation operation) ;;
  if negb (operation =? 2) then
    s <- get ;;
    for_each (hypers s) (fun h => update_power h 0 0 0)
  else ret tt.

(** ** Power signals *)

(** The state of the entity that changed, as [float(..)] reads it: text that
    is no number ("unavailable", "nan"), an infinity, or a finite value. *)
Inductive StateValue : Type :=
| NotNumeric
| Infinite
| Number (q : Q).

Record Event : Type := mkEvent {
  entity_id : string;
  new_state : option StateValue     (* [None]: the entity was removed *)
}.

(** [int(float(event.data["new_state"].state))]. *)
Definition int_float_state (e : Event) : result Z :=
  match new_state e with
  | None => Raise AttributeError
  | Some NotNumeric => Raise ValueError
  | Some Infinite => Raise OverflowError
  | Some (Number q) => Ok (Z.quot (Qnum q) (Zpos (Qden q)))
  end.

(** The test that guards the ranking; [now] is read only when the first
    disjunct is false. *)
Definition stale (now : Z) (s : ZendureManager) : bool :=
  (negb (truthy (_hypers_charge s)) && negb (truthy (_hypers_charge s)))
  || (next_update s <? now).

(** The devices that may discharge, fullest first:
    [sorted([h for h in hypers if electricLevel > float(minSoc)],
            key=electricLevel, reverse=True)]. *)
Definition rank_discharge (sigma : heap) (ids : list string) : result (list string) :=
  rbind (filter_r (fun h => gt_float (electricLevel (sigma h)) (minSoc (sigma h))) ids)
        (sorted sigma electricLevel true).

(** The devices that may charge, emptiest first:
    [sorted([h for h in hypers if electricLevel < float(socSet)],
            key=electricLevel)]. *)
Definition rank_charge (sigma : heap) (ids : list string) : result (list string) :=
  rbind (filter_r (fun h => lt_float (electricLevel (sigma h)) (socSet (sigma h))) ids)
        (sorted sigma electricLevel false).

(** The ranking pass of [_update_energy]. *)
Definition recompute (sigma : heap) (now : Z) : Method unit :=
  modify (set_next_update (now + five_minutes)) ;;
  s <- get ;;
  d <- lift (rank_discharge sigma (hypers s)) ;;
  modify (set_hypers_discharge d) ;;
  c <- lift (rank_charge sigma (hypers s)) ;;
  modify (set_hypers_charge c) ;;
  mc <- lift (sum sigma inputLimit c) ;;
  modify (set_max_charge mc) ;;
  md <- lift (sum sigma outputLimit d) ;;
  modify (set_max_discharge md) ;;
  _LOGGER_info (InfoValidCharging (List.length c) mc) ;;
  _LOGGER_info (InfoValidDischarging (List.length d) md).

(** The rebalancing step of [_update_energy], from the reading of the new
    state to the call of an allocation method. *)
Definition rebalance (sigma : heap) (event : Event) : Method unit :=
  power <- lift (int_float_state event) ;;
  if power =? 0 then ret tt
  else
    _LOGGER_info (InfoUpdateEnergy power) ;;
    s <- get ;;
    discharge <- lift (sum sigma outputHomePower (_hypers_discharge s)) ;;
    if 0 <? discharge then
      upd_discharging
        (discharge + power * (if String.eqb (entity_id event) (consumed s) then 1 else -1))
    else
      charge <- lift (sum sigma gridInputPower (_hypers_charge s)) ;;
      if 0 <? charge then
        upd_charging
          (charge + power * (if String.eqb (entity_id event) (consumed s) then -1 else 1))
      else if String.eqb (entity_id event) (produced s) then upd_charging power
      else upd_discharging power.

(** The body of the [try] block.  [t_test] and [t_set] are the two readings
    of [datetime.now()]. *)
Definition _update_energy_body (sigma : heap) (t_test t_set : Z) (event : Event) : Method unit :=
  s <- get ;;
  if operation s =? 1 then ret tt
  else if operation s =? 2 then
    (if stale t_test s then recompute sigma t_set else ret tt) ;;
    rebalance sigma event
  else ret tt.

(** The handler logs the exception and then evaluates
    [traceback.format_exc()]; the module never imports [traceback], so the
    name lookup raises [NameError] out of the handler. *)
Definition _update_energy (sigma : heap) (t_test t_set : Z) (event : Event) : Method unit :=
  try_except (_update_energy_body sigma t_test t_set event)
    (fun err => _LOGGER_error err ;; raise NameError).

(** ** Inbound messages *)

#[warnings="-register-all"]
Inductive json : Type :=
| JNull
| JBool (b : bool)
| JNumber (q : Q)
| JString (s : string)
| JArray (l : list json)
| JObject (fields : list (string * json)).

Record Message : Type := mkMessage {
  topic : string;
  payload : option json   (* [None]: [decode] or [json.loads] raises *)
}.

(** [json.loads(msg.payload.decode())]; [UnicodeDecodeError] and
    [JSONDecodeError] are both [ValueError]s. *)
Definition json_loads (msg : Message) : result json :=
  match payload msg with
  | Some j => Ok j
  | None => Raise ValueError
  end.

Fixpoint assoc (k : string) (l : list (string * json)) : option json :=
  match l with
  | [] => None
  | (k', v) :: t => if String.eqb k k' then Some v else assoc k t
  end.

(** [payload.get(key, None)]: only a dict has [get]. *)
Definition payload_get (j : json) (key : string) : result json :=
  match j with
  | JObject fields =>
      Ok (match assoc key fields with Some v => v | None => JNull end)
  | _ => Raise AttributeError
  end.

(** Truth value of a JSON value. *)
Definition json_truthy (j : json) : bool :=
  match j with
  | JNull => false
  | JBool b => b
  | JNumber q => negb (Qnum q =? 0)
  | JString s => negb (String.eqb s EmptyString)
  | JArray l => truthy l
  | JObject l => truthy l
  end.

(** [self.hypers.get(deviceid, None)]: lists and dicts are unhashable; a
    key that is no string equals none of the ids. *)
Definition hypers_get (s : ZendureManager) (deviceid : json) : result (option string) :=
  match deviceid with
  | JArray _ | JObject _ => Raise TypeError
  | JString k => Ok (if existsb (String.eqb k) (hypers s) then Some k else None)
  | _ => Ok None
  end.

Definition set_device (h : string) (d : Hyper2000) (sigma : heap) : heap :=
  fun k => if String.eqb k h then d else sigma k.

Section OnMessage.

(** [Hyper2000.handle_message(topic, payload)] ([hyper2000.py]) is not among
    the sources: whatever it is, it may change the device and may raise. *)
Variable handle_message : Hyper2000 -> string -> json -> result unit * Hyper2000.

Definition on_message (msg : Message) : M (ZendureManager * heap) unit :=
  try_except
    (payload <- lift (json_loads msg) ;;
     deviceid <- lift (payload_get payload "deviceId") ;;
     if negb (json_truthy deviceid) then ret tt
     else
       w <- get ;;
       hyper <- lift (hypers_get (fst w) deviceid) ;;
       match hyper with
       | None => ret tt
       | Some h =>
           let '(r, d) := handle_message (snd w h) (topic msg) payload in
           modify (fun w => (fst w, set_device h d (snd w))) ;;
           lift r
       end)
    (fun err => _LOGGER_error err).

End OnMessage.

(** ** Runs of the loop and vocabulary of the statements *)

(** The calls the manager receives from outside: a state change of one of
    the two tracked entities, or the mode selector. *)
Inductive call : Type :=
| PowerSignal (sigma : heap) (t_test t_set : Z) (event : Event)
| SetOperation (operation : Z).

Definition exec (c : call) : Method unit :=
  match c with
  | PowerSignal sigma t_test t_set event => _update_energy sigma t_test t_set event
  | SetOperation o => update_operation o
  end.

(** Calls follow one another whatever the previous one returned or raised. *)
Fixpoint run (cs : list call) (s : ZendureManager) : ZendureManager * list effect :=
  match cs with
  | [] => (s, [])
  | c :: t =>
      let '(_, s1, w1) := exec c s in
      let '(s2, w2) := run t s1 in
      (s2, w1 ++ w2)
  end.

(** Whether a power signal read at [t_test] enters the ranking pass. *)
Definition recomputes (t_test : Z) (s : ZendureManager) : bool :=
  (operation s =? 2) && stale t_test s.

Definition is_command (x : effect) : bool :=
  match x with Command _ _ _ _ => true | Log _ => false end.

Definition is_command_to (h : string) (x : effect) : bool :=
  match x with Command k _ _ _ => String.eqb k h | Log _ => false end.

(** The number behind a sensor state that is known. *)
Definition value (v : state) : Z :=
  match v with Some z => z | None => 0 end.

Definition is_known (v : state) : bool :=
  match v with Some _ => true | None => false end.

Definition all_known (d : Hyper2000) : bool :=
  is_known (electricLevel d) && is_known (minSoc d) && is_known (socSet d)
  && is_known (inputLimit d) && is_known (outputLimit d)
  && is_known (gridInputPower d) && is_known (outputHomePower d).

Definition level (sigma : heap) (h : string) : Z := value (electricLevel (sigma h)).

Definition total (sigma : heap) (attr : Hyper2000 -> state) (l : list string) : Z :=
  fold_right Z.add 0 (map (fun h => value (attr (sigma h))) l).

(** Every command among the effects [w] goes to a device of [targets]. *)
Definition sends_only_to (targets : list string) (w : list effect) : Prop :=
  forall k f a b, In (Command k f a b) w -> In k targets.

(** No command among the effects [w]. *)
Definition quiet (w : list effect) : Prop :=
  forall x, In x w -> is_command x = false.

(** Decorated elements in the order of their keys. *)
Definition key_before {A} (before : Z -> Z -> bool) (p q : Z * A) : Prop :=
  before (fst p) (fst q) = true.

(** A call that reads the clock does so no later than [deadline]. *)
Definition read_by (deadline : Z) (c : call) : Prop :=
  match c with
  | PowerSignal _ t_test _ _ => t_test <= deadline
  | SetOperation _ => True
  end.

(** The heap a call sees leaves the level of device [k] unknown. *)
Definition unknown_to (k : string) (c : call) : Prop :=
  match c with
  | PowerSignal sigma _ _ _ => electricLevel (sigma k) = None
  | SetOperation _ => True
  end.

(** A parsed payload that has no ["deviceId"] entry, or one that is not the
    id of a device of the catalog. *)
Definition names_no_device (s : ZendureManager) (j : json) : Prop :=
  match j with
  | JObject fields =>
      match assoc "deviceId" fields with
      | Some (JString k) => ~ In k (hypers s)
      | _ => True
      end
  | _ => True
  end.

(** The three thresholds and limits the ranking reads are numbers that
    [float(..)] keeps as they are. *)
Definition rankable (d : Hyper2000) : Prop :=
  all_known d = true
  /\ Z.abs (value (minSoc d)) <= 2 ^ 53
  /\ Z.abs (value (socSet d)) <= 2 ^ 53.

(** The command that stops a device. *)
Definition stop (h : string) : effect := Command h 0 0 0.


(** ** The rest of the manager and the sensors *)

(** The devices a list of effects commands, in order, and the watts it asks
    for in all. *)
Fixpoint targets (w : list effect) : list string :=
  match w with
  | [] => []
  | Command h _ _ _ :: t => h :: targets t
  | Log _ :: t => targets t
  end.


(** A command that asks for nothing but discharge, or nothing but charge. *)
Definition discharge_only (x : effect) : Prop :=
  match x with
  | Command _ chargetype chargepower _ => chargetype = 0 /\ chargepower = 0
  | Log _ => True
  end.

Definition charge_only (x : effect) : Prop :=
  match x with
  | Command _ _ _ dischargepower => dischargepower = 0
  | Log _ => True
  end.

Definition set_hypers (ids : list string) (s : ZendureManager) : ZendureManager :=
  mkManager ids (consumed s) (produced s) (next_update s) (operation s)
    (_hypers_charge s) (_hypers_discharge s) (_max_charge s) (_max_discharge s).

(** What the manager does on the transport, on the scheduler and in the log
    outside a balancing decision. *)
Inductive io : Type :=
| InfoRefresh                       (* "refresh hypers" *)
| InfoFound (n : nat)               (* "Found: n hypers" *)
| InfoAddingSensors
| LoggedError (e : exn)             (* [_LOGGER.error] and [_LOGGER.exception] *)
| Publish (topic payload : string)
| Subscribe (topic : string)
| CreateSensors (h : string)
| AddSelects
| ScheduleRefresh.

(** The MQTT client, an external collaborator: a call may raise and may
    change the client. *)
Record Client (C : Type) : Type := mkClient {
  publish : C -> string -> string -> result unit * C;
  subscribe : C -> string -> result unit * C
}.
Arguments publish {C} _ _ _ _.
Arguments subscribe {C} _ _ _.

Definition dquote : string := String (Ascii.ascii_of_nat 34) EmptyString.

(** The payload of the poll: a JSON object whose [properties] entry is the
    list with the single string [getAll]. *)
Definition get_all : string :=
  ("{" ++ dquote ++ "properties" ++ dquote ++ ": [" ++ dquote ++ "getAll" ++ dquote ++ "]}")%string.

(** The loop of [_refresh_data]; [topic_read h] is [h._topic_read]. *)
Fixpoint publish_each {C} (cl : Client C) (topic_read : string -> string)
  (ids : list string) (c : C) : result unit * C * list io :=
  match ids with
  | [] => (Ok tt, c, [])
  | h :: t =>
      match publish cl c (topic_read h) get_all with
      | (Ok _, c1) =>
          let '(r, c2, w) := publish_each cl topic_read t c1 in
          (r, c2, Publish (topic_read h) get_all :: w)
      | (Raise e, c1) => (Raise e, c1, [])
      end
  end.

(** What one successful iteration of the poll does. *)
Definition poll (topic_read : string -> string) (h : string) : io :=
  Publish (topic_read h) get_all.

(** [_refresh_data]; [_mqtt] is [None] until [initialize] has set it. *)
Definition _refresh_data {C} (cl : Client C) (topic_read : string -> string)
  (_mqtt : option C) (s : ZendureManager) : option C * list io :=
  match _mqtt with
  | None => (None, [InfoRefresh; ScheduleRefresh])
  | Some c =>
      match publish_each cl topic_read (hypers s) c with
      | (Ok _, c1, w) => (Some c1, InfoRefresh :: w ++ [ScheduleRefresh])
      | (Raise e, c1, w) => (Some c1, InfoRefresh :: w ++ [LoggedError e; ScheduleRefresh])
      end
  end.

(** The [Api] collaborator and the two class-level helpers [initialize]
    calls, by what they return or raise. *)
Record Api (C : Type) : Type := mkApi {
  connect : result bool;
  get_hypers : result (list string);
  get_mqtt : result C;
  create_sensors : string -> result unit;
  add_selects : result unit
}.
Arguments connect {C} _.
Arguments get_hypers {C} _.
Arguments get_mqtt {C} _.
Arguments create_sensors {C} _ _.
Arguments add_selects {C} _.

(** The two topic families of a device, from its [prodkey] and [hid]. *)
Definition device_topic (prodkey hid : string -> string) (h : string) : string :=
  ("/" ++ prodkey h ++ "/" ++ hid h ++ "/#")%string.

Definition iot_topic (prodkey hid : string -> string) (h : string) : string :=
  ("iot/" ++ prodkey h ++ "/" ++ hid h ++ "/#")%string.

(** What one successful iteration of the loop of [initialize] does. *)
Definition subscriptions (prodkey hid : string -> string) (h : string) : list io :=
  [CreateSensors h; Subscribe (device_topic prodkey hid h);
   Subscribe (iot_topic prodkey hid h)].

(** The inner loop of [initialize]. *)
Fixpoint subscribe_each {C} (cl : Client C) (api : Api C) (prodkey hid : string -> string)
  (ids : list string) (c : C) : result unit * C * list io :=
  match ids with
  | [] => (Ok tt, c, [])
  | h :: t =>
      match create_sensors api h with
      | Raise e => (Raise e, c, [])
      | Ok _ =>
          match subscribe cl c (device_topic prodkey hid h) with
          | (Raise e, c1) => (Raise e, c1, [CreateSensors h])
          | (Ok _, c1) =>
              match subscribe cl c1 (iot_topic prodkey hid h) with
              | (Raise e, c2) =>
                  (Raise e, c2, [CreateSensors h; Subscribe (device_topic prodkey hid h)])
              | (Ok _, c2) =>
                  let '(r, c3, w) := subscribe_each cl api prodkey hid t c2 in
                  (r, c3,
                   CreateSensors h :: Subscribe (device_topic prodkey hid h)
                   :: Subscribe (iot_topic prodkey hid h) :: w)
              end
          end
      end
  end.

(** [initialize]: the value returned, the manager, [self._mqtt] and what was
    done. *)
Definition initialize {C} (cl : Client C) (api : Api C) (prodkey hid : string -> string)
  (_mqtt : option C) (s : ZendureManager) : bool * ZendureManager * option C * list io :=
  match connect api with
  | Raise e => (false, s, _mqtt, [LoggedError e])
  | Ok false => (false, s, _mqtt, [])
  | Ok true =>
      match get_hypers api with
      | Raise e => (false, s, _mqtt, [LoggedError e])
      | Ok ids =>
          let s1 := set_hypers ids s in
          match get_mqtt api with
          | Raise e => (false, s1, _mqtt, [LoggedError e])
          | Ok c =>
              let '(r, c1, w) := subscribe_each cl api prodkey hid ids c in
              let w1 := match r with Ok _ => w | Raise e => w ++ [LoggedError e] end in
              let w2 := w1 ++ [InfoFound (List.length ids); InfoAddingSensors] in
              match add_selects api with
              | Raise e => (false, s1, Some c1, w2 ++ [LoggedError e])
              | Ok _ => (true, s1, Some c1, w2 ++ [AddSelects])
              end
          end
      end
  end.

(** *** [sensor.py] *)

Inductive pyfloat : Type :=
| Finite (q : Q)
| Inf
| NaN.

(** The values [update_value] may be given: [PyObject] stands for anything
    that is neither [None], a number nor a string. *)
Inductive pyvalue : Type :=
| PyNone
| PyBool (b : bool)
| PyInt (z : Z)
| PyFloat (f : pyfloat)
| PyStr (s : string)
| PyObject.

(** [int(value)] when [isinstance(value, (int, float))]; [bool] is a subclass
    of [int]. *)
Definition int_of_number (v : pyvalue) : option (result Z) :=
  match v with
  | PyBool b => Some (Ok (if b then 1 else 0))
  | PyInt z => Some (Ok z)
  | PyFloat (Finite q) => Some (Ok (Z.quot (Qnum q) (Zpos (Qden q))))
  | PyFloat Inf => Some (Raise OverflowError)
  | PyFloat NaN => Some (Raise ValueError)
  | PyNone | PyStr _ | PyObject => None
  end.

(** A [ZendureSensor]: its template, if any, as the function that renders a
    value, its native value, and whether Home Assistant has taken it up
    ([self.hass]). *)
Record ZendureSensor : Type := mkSensor {
  _value_template : option (pyvalue -> result pyvalue);
  _attr_native_value : pyvalue;
  hass : bool
}.

Inductive sensor_effect : Type :=
| ScheduleUpdate
| LogException (e : exn).

(** [ZendureSensor.__init__]: no native value yet, not yet taken up. *)
Definition new_sensor (template : option (pyvalue -> result pyvalue)) : ZendureSensor :=
  mkSensor template PyNone false.

Definition store (v : pyvalue) (self : ZendureSensor) : ZendureSensor * list sensor_effect :=
  (mkSensor (_value_template self) v (hass self),
   if hass self then [ScheduleUpdate] else []).

Definition update_value (self : ZendureSensor) (value : pyvalue)
  : ZendureSensor * list sensor_effect :=
  match _value_template self with
  | Some template =>
      match template value with
      | Ok v => store v self
      | Raise e => (self, [LogException e])
      end
  | None =>
      match int_of_number value with
      | Some (Ok z) => store (PyInt z) self
      | Some (Raise e) => (self, [LogException e])
      | None => (self, [])
      end
  end.

(** The state the manager reads from a sensor. *)
Definition sensor_state (self : ZendureSensor) : state :=
  match _attr_native_value self with
  | PyInt z => Some z
  | _ => None
  end.

Fixpoint update_values (self : ZendureSensor) (values : list pyvalue) : ZendureSensor :=
  match values with
  | [] => self
  | v :: t => update_values (fst (update_value self v)) t
  end.

Definition is_power_signal (c : call) : bool :=
  match c with PowerSignal _ _ _ _ => true | SetOperation _ => false end.

(** Two managers that differ at most in the deadline, and not at all once the
    charge list is filled. *)
Inductive same_but_deadline (s s' : ZendureManager) : Prop :=
| sbd_same : s' = s -> same_but_deadline s s'
| sbd_deadline (x : Z) :
    _hypers_charge s = [] -> s' = set_next_update x s -> same_but_deadline s s'.

(** * Properties *)

(** ** Rounding: where [float(..)] and [/] are exact *)

Module PyNumFacts.
Import PyNum.

Lemma pow2_pos (k : Z) : 0 <= k -> 0 < 2 ^ k.
Proof. intros; apply Z.pow_pos_nonneg; lia. Qed.

Lemma pow2_split (i j : Z) : 0 <= i -> 0 <= j -> 2 ^ (i + j) = 2 ^ i * 2 ^ j.
Proof. intros; apply Z.pow_add_r; assumption. Qed.

(** Normalisation: with [s0 = 52 - ilog2_ratio a n], the scaled ratio
    [a * 2 ^ s0 / n] lies in [[2 ^ 52, 2 ^ 53)]. *)
Lemma ilog2_ratio_bounds (a n : Z) :
  0 < a < 2 ^ 53 -> 0 < n ->
  let s0 := 52 - ilog2_ratio a n in
  0 <= s0 /\ n * 2 ^ 52 <= a * 2 ^ s0 < n * 2 ^ 53.
Proof.
  intros Ha Hn.
  destruct (Z.log2_spec a) as [La Ua]; [lia|].
  destruct (Z.log2_spec n) as [Ln Un]; [lia|].
  assert (Hla : 0 <= Z.log2 a) by apply Z.log2_nonneg.
  assert (Hln : 0 <= Z.log2 n) by apply Z.log2_nonneg.
  assert (Hla52 : Z.log2 a <= 52).
  { assert (Z.log2 a < 53); [|lia]. apply Z.log2_lt_pow2; lia. }
  unfold ilog2_ratio. cbv zeta.
  set (la := Z.log2 a) in *. set (ln := Z.log2 n) in *.
  set (d := la - ln).
  assert (Hd : d <= 52) by (unfold d; lia).
  destruct (Z.leb_spec (n * 2 ^ Z.max 0 d) (a * 2 ^ Z.max 0 (- d))) as [T|T].
  - split; [lia|]. split.
    + destruct (Z.le_ge_cases 0 d) as [D|D].
      * rewrite (Z.max_r 0 d), (Z.max_l 0 (- d)) in T by lia.
        replace (2 ^ 52) with (2 ^ d * 2 ^ (52 - d))
          by (rewrite <- pow2_split by lia; f_equal; lia).
        pose proof (pow2_pos (52 - d)). nia.
      * rewrite (Z.max_l 0 d), (Z.max_r 0 (- d)) in T by lia.
        replace (2 ^ (52 - d)) with (2 ^ (- d) * 2 ^ 52)
          by (rewrite <- pow2_split by lia; f_equal; lia).
        nia.
    + assert (E : 2 ^ (la + 1) * 2 ^ (52 - d) = 2 ^ ln * 2 ^ 53).
      { rewrite <- !pow2_split by lia. f_equal. unfold d. lia. }
      apply Z.lt_le_trans with (2 ^ (la + 1) * 2 ^ (52 - d)).
      * apply Z.mul_lt_mono_pos_r; [apply pow2_pos; lia | lia].
      * rewrite E. apply Z.mul_le_mono_nonneg_r; [apply Z.pow_nonneg; lia | lia].
  - replace (52 - (d - 1)) with (53 - d) by lia.
    split; [lia|]. split.
    + assert (E : 2 ^ (ln + 1) * 2 ^ 52 = 2 ^ la * 2 ^ (53 - d)).
      { rewrite <- !pow2_split by lia. f_equal. unfold d. lia. }
      apply Z.le_trans with (2 ^ (ln + 1) * 2 ^ 52).
      * apply Z.mul_le_mono_nonneg_r; [apply Z.pow_nonneg; lia | lia].
      * rewrite E. apply Z.mul_le_mono_nonneg_r; [apply Z.pow_nonneg; lia | lia].
    + destruct (Z.le_ge_cases 0 d) as [D|D].
      * rewrite (Z.max_r 0 d), (Z.max_l 0 (- d)) in T by lia.
        replace (2 ^ 53) with (2 ^ d * 2 ^ (53 - d))
          by (rewrite <- pow2_split by lia; f_equal; lia).
        pose proof (pow2_pos (53 - d)). nia.
      * rewrite (Z.max_l 0 d), (Z.max_r 0 (- d)) in T by lia.
        replace (2 ^ (53 - d)) with (2 ^ (- d) * 2 ^ 53)
          by (rewrite <- pow2_split by lia; f_equal; lia).
        nia.
Qed.

Lemma round_half_even_cases (num den : Z) :
  round_half_even num den = num / den \/
  (round_half_even num den = num / den + 1 /\ den <= 2 * (num mod den)).
Proof.
  unfold round_half_even.
  destruct (Z.ltb_spec (2 * (num mod den)) den); [left; reflexivity|].
  destruct (Z.ltb_spec den (2 * (num mod den))); [right; split; [reflexivity|lia]|].
  destruct (Z.even (num / den)); [left; reflexivity|right; split; [reflexivity|lia]].
Qed.

(** Scaling by a power of two, rounding to nearest and truncating again
    loses nothing when the divisor is below twice the scale. *)
Lemma round_then_truncate (a n P : Z) :
  0 <= a -> 0 < n -> 0 < P -> n < 2 * P ->
  round_half_even (a * P) n / P = a / n.
Proof.
  intros Ha Hn HP HnP.
  pose proof (Z.div_mod a n ltac:(lia)) as Ea.
  pose proof (Z.mod_pos_bound a n Hn) as Ba.
  pose proof (Z.div_mod (a * P) n ltac:(lia)) as En.
  pose proof (Z.mod_pos_bound (a * P) n Hn) as Bn.
  set (k := a / n) in *. set (ra := a mod n) in *.
  set (q0 := a * P / n) in *. set (r0 := (a * P) mod n) in *.
  assert (Lo : k * P <= q0).
  { apply Z.div_le_lower_bound; [lia|]. nia. }
  assert (Up : q0 < (k + 1) * P).
  { apply Z.div_lt_upper_bound; [lia|]. nia. }
  assert (Hm : k * P <= round_half_even (a * P) n < (k + 1) * P).
  { destruct (round_half_even_cases (a * P) n) as [->|[-> Hr]]; fold q0; try fold r0 in Hr.
    - lia.
    - split; [lia|].
      destruct (Z.lt_ge_cases (q0 + 1) ((k + 1) * P)) as [|C]; [assumption|exfalso].
      assert (q0 = (k + 1) * P - 1) by lia. subst q0. nia. }
  symmetry. apply Z.div_unique with (r := round_half_even (a * P) n - k * P); lia.
Qed.

(** Below [2 ^ 53], [int(a / n)] is the integer quotient. *)
Lemma truediv_floor (a n : Z) :
  0 < a < 2 ^ 53 -> 0 < n ->
  exists f, truediv a n = Ok f /\ int_of_float f = a / n.
Proof.
  intros Ha Hn.
  destruct (ilog2_ratio_bounds a n Ha Hn) as (Hs0 & Lo & Up).
  unfold truediv, round_ratio.
  replace (n =? 0) with false by (symmetry; apply Z.eqb_neq; lia).
  replace (a =? 0) with false by (symmetry; apply Z.eqb_neq; lia).
  rewrite (Z.abs_eq a), (Z.abs_eq n) by lia.
  replace (a <? 0) with false by (symmetry; apply Z.ltb_ge; lia).
  replace (n <? 0) with false by (symmetry; apply Z.ltb_ge; lia).
  cbn [xorb].
  set (L := ilog2_ratio a n) in *.
  set (e := Z.max (L - 52) (-1074)).
  assert (He : e <= 0) by (unfold e; lia).
  rewrite (Z.max_l 0 e) by lia. rewrite (Z.max_r 0 (- e)) by lia.
  change (2 ^ 0) with 1. rewrite !Z.mul_1_r.
  set (P := 2 ^ (- e)).
  assert (HP : 0 < P) by (apply pow2_pos; lia).
  set (m := round_half_even (a * P) n).
  assert (Hq : a * P < n * 2 ^ 53).
  { destruct (Z.le_ge_cases (52 - L) 1074) as [C|C].
    - replace P with (2 ^ (52 - L)) by (unfold P; f_equal; unfold e; lia). exact Up.
    - replace P with (2 ^ 1074) by (unfold P; f_equal; unfold e; lia).
      apply Z.le_lt_trans with (a * 2 ^ (52 - L)); [|exact Up].
      apply Z.mul_le_mono_nonneg_l; [lia|].
      apply Z.pow_le_mono_r; lia. }
  assert (Hm : 0 <= m <= 2 ^ 53).
  { unfold m.
    assert (0 <= a * P / n < 2 ^ 53).
    { split; [apply Z.div_pos; nia|apply Z.div_lt_upper_bound; lia]. }
    destruct (round_half_even_cases (a * P) n) as [->|[-> _]]; lia. }
  replace (2 ^ 1024 <=? m) with false.
  2:{ symmetry. apply Z.leb_gt. apply Z.le_lt_trans with (2 ^ 53); [lia|].
      apply Z.pow_lt_mono_r; lia. }
  eexists; split; [reflexivity|].
  unfold int_of_float; cbn [mant expo].
  rewrite (Z.max_l 0 e) by lia. rewrite (Z.max_r 0 (- e)) by lia.
  change (2 ^ 0) with 1. rewrite Z.mul_1_r. fold P.
  rewrite Z.quot_div_nonneg by lia.
  destruct (Z.le_gt_cases (52 - L) 1074) as [C|C].
  - apply round_then_truncate; try lia.
    assert (E : P = 2 ^ (52 - L)) by (unfold P; f_equal; unfold e; lia).
    rewrite <- E in Lo.
    change (2 ^ 52) with 4503599627370496 in Lo.
    change (2 ^ 53) with 9007199254740992 in Ha. nia.
  - assert (E : P = 2 ^ 1074) by (unfold P; f_equal; unfold e; lia).
    assert (HPbig : 2 ^ 53 < P).
    { rewrite E. apply Z.pow_lt_mono_r; lia. }
    assert (Hsub : 2 * (a * P) <= n * 2 ^ 53).
    { replace (a * 2 ^ (52 - L)) with (a * P * 2 ^ (52 - L - 1074)) in Up.
      2:{ rewrite E, <- Z.mul_assoc, <- pow2_split by lia. do 2 f_equal. lia. }
      assert (2 <= 2 ^ (52 - L - 1074)).
      { change 2 with (2 ^ 1) at 1. apply Z.pow_le_mono_r; lia. }
      nia. }
    rewrite Z.div_small by lia.
    symmetry. apply Z.div_small. nia.
Qed.


Lemma round_ratio_exact (z : Z) :
  0 < z <= 2 ^ 53 ->
  exists f, round_ratio z 1 = Some f /\ represents f z.
Proof.
  intros Hz.
  destruct (Z.eq_dec z (2 ^ 53)) as [->|Hne].
  { eexists; split; [vm_compute; reflexivity|vm_compute; reflexivity]. }
  assert (Hz' : 0 < z < 2 ^ 53) by lia.
  destruct (ilog2_ratio_bounds z 1 Hz' ltac:(lia)) as (Hs0 & Lo & Up).
  unfold round_ratio.
  set (L := ilog2_ratio z 1) in *.
  assert (Hs : 52 - L < 53).
  { apply (Z.pow_lt_mono_r_iff 2); [lia|lia|].
    pose proof (pow2_pos (52 - L) Hs0). nia. }
  replace (Z.max (L - 52) (-1074)) with (L - 52) by lia.
  rewrite (Z.max_l 0 (L - 52)) by lia.
  replace (Z.max 0 (- (L - 52))) with (52 - L) by lia.
  change (2 ^ 0) with 1. rewrite !Z.mul_1_r.
  assert (E : round_half_even (z * 2 ^ (52 - L)) 1 = z * 2 ^ (52 - L)).
  { unfold round_half_even. rewrite Z.mod_1_r, Z.div_1_r. reflexivity. }
  rewrite E.
  replace (2 ^ 1024 <=? z * 2 ^ (52 - L)) with false.
  2:{ symmetry. apply Z.leb_gt. apply Z.lt_trans with (2 ^ 53); [lia|].
      apply Z.pow_lt_mono_r; lia. }
  eexists; split; [reflexivity|].
  unfold represents; cbn [mant expo].
  rewrite (Z.max_l 0 (L - 52)) by lia.
  replace (Z.max 0 (- (L - 52))) with (52 - L) by lia.
  change (2 ^ 0) with 1. lia.
Qed.

(** Up to [2 ^ 53] in magnitude, [float(z)] is [z] itself. *)
Lemma float_of_int_exact (z : Z) :
  Z.abs z <= 2 ^ 53 ->
  exists f, float_of_int z = Ok f /\ represents f z.
Proof.
  intros Hz. unfold float_of_int.
  destruct (Z.eqb_spec z 0) as [->|Hnz].
  { eexists; split; [reflexivity|reflexivity]. }
  destruct (round_ratio_exact (Z.abs z) ltac:(lia)) as (f & -> & Hf).
  eexists; split; [reflexivity|].
  destruct (Z.ltb_spec z 0).
  - unfold represents in *; cbn [fneg mant expo].
    rewrite Z.mul_opp_l, Hf. rewrite Z.abs_neq by lia. lia.
  - rewrite Z.abs_eq in Hf by lia. exact Hf.
Qed.

Lemma int_gt_float_represents (x z : Z) (f : float) :
  represents f z -> int_gt_float x f = (z <? x).
Proof.
  unfold represents, int_gt_float. intros ->.
  pose proof (pow2_pos (Z.max 0 (- expo f)) ltac:(lia)).
  destruct (Z.ltb_spec z x), (Z.ltb_spec (z * 2 ^ Z.max 0 (- expo f)) (x * 2 ^ Z.max 0 (- expo f)));
    try reflexivity; nia.
Qed.

Lemma int_lt_float_represents (x z : Z) (f : float) :
  represents f z -> int_lt_float x f = (x <? z).
Proof.
  unfold represents, int_lt_float. intros ->.
  pose proof (pow2_pos (Z.max 0 (- expo f)) ltac:(lia)).
  destruct (Z.ltb_spec x z), (Z.ltb_spec (x * 2 ^ Z.max 0 (- expo f)) (z * 2 ^ Z.max 0 (- expo f)));
    try reflexivity; nia.
Qed.

End PyNumFacts.

(** ** Equations of the method monad *)

Lemma bind_get {S B} (k : S -> M S B) (s : S) : bind get k s = k s s.
Proof. unfold bind, get. destruct (k s s) as [[r s2] w2]. reflexivity. Qed.

Lemma bind_ret {S A B} (a : A) (k : A -> M S B) (s : S) : bind (ret a) k s = k a s.
Proof. unfold bind, ret. destruct (k a s) as [[r s2] w2]. reflexivity. Qed.

Lemma bind_lift_ok {S A B} (a : A) (k : A -> M S B) (s : S) :
  bind (lift (Ok a)) k s = k a s.
Proof. unfold bind, lift. destruct (k a s) as [[r s2] w2]. reflexivity. Qed.

Lemma bind_lift_raise {S A B} (e : exn) (k : A -> M S B) (s : S) :
  bind (lift (Raise e)) k s = (Raise e, s, []).
Proof. reflexivity. Qed.

Lemma bind_modify {S B} (f : S -> S) (k : unit -> M S B) (s : S) :
  bind (modify f) k s = k tt (f s).
Proof. unfold bind, modify. destruct (k tt (f s)) as [[r s2] w2]. reflexivity. Qed.

Lemma bind_emit {S B} (x : effect) (k : unit -> M S B) (s : S) :
  bind (emit x) k s = let '(r, s2, w2) := k tt s in (r, s2, x :: w2).
Proof. reflexivity. Qed.

(** ** Loops that only send commands *)

Lemma for_each_update_power {S} (l : list string) (a b c : Z) (s : S) :
  for_each l (fun h => update_power h a b c) s
  = (Ok tt, s, map (fun h => Command h a b c) l).
Proof.
  induction l as [|h t IH]; [reflexivity|].
  cbn [for_each map]. unfold bind at 1. cbn. rewrite IH. reflexivity.
Qed.

Lemma for_each_split_ok {S} (l : list string) (w : Z) (cmd : string -> Z -> effect) (s : S) :
  for_each l (fun h => x <- lift (Ok w) ;; emit (cmd h x)) s
  = (Ok tt, s, map (fun h => cmd h w) l).
Proof.
  induction l as [|h t IH]; [reflexivity|].
  cbn [for_each map]. unfold bind at 1. cbn. rewrite IH. reflexivity.
Qed.

Lemma for_each_split_raise {S} (h : string) (t : list string) (e : exn)
  (cmd : string -> Z -> effect) (s : S) :
  for_each (h :: t) (fun h => x <- lift (Raise e) ;; emit (cmd h x)) s
  = (Raise e, s, []).
Proof. reflexivity. Qed.

(** ** What the two allocation methods do *)

Lemma upd_charging_empty (charge : Z) (s : ZendureManager) :
  _hypers_charge s = [] ->
  upd_charging charge s = (Ok tt, s, [Log (InfoCharging charge)]).
Proof. intros E. unfold upd_charging, bind. cbn. rewrite E. reflexivity. Qed.

Lemma upd_charging_single (charge : Z) (s : ZendureManager) (h0 : string) (rest : list string) :
  _hypers_charge s = h0 :: rest -> charge < 400 ->
  upd_charging charge s
  = (Ok tt, s, Log (InfoCharging charge) :: Command h0 1 charge 0 :: map stop rest).
Proof.
  intros E H. unfold upd_charging, bind. cbn. rewrite E.
  replace (charge <? 400) with true by (symmetry; apply Z.ltb_lt; lia).
  cbn. destruct rest as [|h1 rest]; [reflexivity|].
  cbn [List.length].
  destruct (Z.ltb_spec 1 (Z.pos (Pos.of_succ_nat (S (List.length rest))))) as [_|C]; [|lia].
  rewrite for_each_update_power. reflexivity.
Qed.

Lemma upd_charging_split (charge : Z) (s : ZendureManager) (h0 : string) (rest : list string) :
  _hypers_charge s = h0 :: rest -> 400 <= charge ->
  upd_charging charge s
  = match int_div_len charge (h0 :: rest) with
    | Ok w => (Ok tt, s,
               Log (InfoCharging charge) :: map (fun h => Command h 1 w 0) (h0 :: rest))
    | Raise e => (Raise e, s, [Log (InfoCharging charge)])
    end.
Proof.
  intros E H. unfold upd_charging. unfold bind at 1 2. cbn. rewrite E.
  replace (charge <? 400) with false by (symmetry; apply Z.ltb_ge; lia).
  unfold update_power.
  destruct (int_div_len charge (h0 :: rest)) as [w|e].
  - rewrite (for_each_split_ok (h0 :: rest) w (fun h x => Command h 1 x 0)). reflexivity.
  - reflexivity.
Qed.

Lemma upd_discharging_empty (discharge : Z) (s : ZendureManager) :
  _hypers_discharge s = [] ->
  upd_discharging discharge s = (Ok tt, s, [Log (InfoDischarging discharge)]).
Proof. intros E. unfold upd_discharging, bind. cbn. rewrite E. reflexivity. Qed.

Lemma upd_discharging_single (discharge : Z) (s : ZendureManager) (h0 : string) (rest : list string) :
  _hypers_discharge s = h0 :: rest -> discharge < 400 ->
  upd_discharging discharge s
  = (Ok tt, s, Log (InfoDischarging discharge) :: Command h0 0 0 discharge :: map stop rest).
Proof.
  intros E H. unfold upd_discharging, bind. cbn. rewrite E.
  replace (discharge <? 400) with true by (symmetry; apply Z.ltb_lt; lia).
  cbn. destruct rest as [|h1 rest]; [reflexivity|].
  cbn [List.length].
  destruct (Z.ltb_spec 1 (Z.pos (Pos.of_succ_nat (S (List.length rest))))) as [_|C]; [|lia].
  rewrite for_each_update_power. reflexivity.
Qed.

Lemma upd_discharging_split (discharge : Z) (s : ZendureManager) (h0 : string) (rest : list string) :
  _hypers_discharge s = h0 :: rest -> 400 <= discharge ->
  upd_discharging discharge s
  = match int_div_len discharge (h0 :: rest) with
    | Ok w => (Ok tt, s,
               Log (InfoDischarging discharge) :: map (fun h => Command h 0 0 w) (h0 :: rest))
    | Raise e => (Raise e, s, [Log (InfoDischarging discharge)])
    end.
Proof.
  intros E H. unfold upd_discharging. unfold bind at 1 2. cbn. rewrite E.
  replace (discharge <? 400) with false by (symmetry; apply Z.ltb_ge; lia).
  unfold update_power.
  destruct (int_div_len discharge (h0 :: rest)) as [w|e].
  - rewrite (for_each_split_ok (h0 :: rest) w (fun h x => Command h 0 0 x)). reflexivity.
  - reflexivity.
Qed.

Lemma int_div_len_floor {A} (total : Z) (l : list A) :
  0 < total < 2 ^ 53 -> l <> [] ->
  int_div_len total l = Ok (total / Z.of_nat (List.length l)).
Proof.
  intros Ht Hl. unfold int_div_len.
  assert (Hn : 0 < Z.of_nat (List.length l)) by (destruct l; [congruence|cbn [List.length]; lia]).
  destruct (PyNumFacts.truediv_floor total _ Ht Hn) as (f & -> & <-). reflexivity.
Qed.

(** ** Allocation threshold *)

(** C5, as the code has it: an empty candidate list gets no command; below
    400 W the first candidate gets the whole amount and every other one the
    stop command; from 400 W up to (excluding) 2^53 W every candidate gets
    the integer quotient of the amount by the number of candidates.  The
    quotient is taken through a double-precision division, which is exact
    below 2^53. *)
Theorem allocation_threshold (s : ZendureManager) (total : Z) :
  (_hypers_charge s = [] ->
     upd_charging total s = (Ok tt, s, [Log (InfoCharging total)]))
  /\ (_hypers_discharge s = [] ->
     upd_discharging total s = (Ok tt, s, [Log (InfoDischarging total)]))
  /\ (forall h0 rest, _hypers_charge s = h0 :: rest -> total < 400 ->
     upd_charging total s
     = (Ok tt, s, Log (InfoCharging total) :: Command h0 1 total 0 :: map stop rest))
  /\ (forall h0 rest, _hypers_discharge s = h0 :: rest -> total < 400 ->
     upd_discharging total s
     = (Ok tt, s, Log (InfoDischarging total) :: Command h0 0 0 total :: map stop rest))
  /\ (_hypers_charge s <> [] -> 400 <= total < 2 ^ 53 ->
     upd_charging total s
     = (Ok tt, s,
        Log (InfoCharging total)
        :: map (fun h => Command h 1 (total / Z.of_nat (List.length (_hypers_charge s))) 0)
               (_hypers_charge s)))
  /\ (_hypers_discharge s <> [] -> 400 <= total < 2 ^ 53 ->
     upd_discharging total s
     = (Ok tt, s,
        Log (InfoDischarging total)
        :: map (fun h => Command h 0 0 (total / Z.of_nat (List.length (_hypers_discharge s))))
               (_hypers_discharge s))).
Proof.
  repeat split.
  - apply upd_charging_empty.
  - apply upd_discharging_empty.
  - intros; apply upd_charging_single; assumption.
  - intros; apply upd_discharging_single; assumption.
  - intros Hne Ht. destruct (_hypers_charge s) as [|h0 rest] eqn:E; [congruence|].
    rewrite (upd_charging_split total s h0 rest E) by lia.
    rewrite int_div_len_floor by (lia || congruence). reflexivity.
  - intros Hne Ht. destruct (_hypers_discharge s) as [|h0 rest] eqn:E; [congruence|].
    rewrite (upd_discharging_split total s h0 rest E) by lia.
    rewrite int_div_len_floor by (lia || congruence). reflexivity.
Qed.

(** With three candidates, 399 W go to the first one alone and 600 W are
    split into 200 W each. *)
Lemma allocation_threshold_witness :
  let s := set_hypers_discharge ["h1"; "h2"; "h3"]%string
             (init ["h1"; "h2"; "h3"]%string "consumed" "produced" 0) in
  upd_discharging 399 s
  = (Ok tt, s, [Log (InfoDischarging 399);
                Command "h1" 0 0 399; Command "h2" 0 0 0; Command "h3" 0 0 0])
  /\ upd_discharging 600 s
  = (Ok tt, s, [Log (InfoDischarging 600);
                Command "h1" 0 0 200; Command "h2" 0 0 200; Command "h3" 0 0 200]).
Proof.
  intros s.
  destruct (allocation_threshold s 399) as (_ & _ & _ & Hsingle & _ & _).
  destruct (allocation_threshold s 600) as (_ & _ & _ & _ & _ & Hsplit).
  split.
  - apply (Hsingle "h1"%string ["h2"; "h3"]%string); [reflexivity|lia].
  - apply Hsplit; [discriminate|].
    change (2 ^ 53) with 9007199254740992. lia.
Defined.

(** C5, as the claim states it, fails for a large amount: 2^53 + 1 W for a
    single candidate are sent as 2^53 W, not as the quotient by one. *)
Lemma allocation_split_not_floor :
  let s := set_hypers_discharge ["h1"]%string
             (init ["h1"]%string "consumed" "produced" 0) in
  let total := 2 ^ 53 + 1 in
  400 <= total
  /\ upd_discharging total s
     = (Ok tt, s, [Log (InfoDischarging total); Command "h1" 0 0 (2 ^ 53)])
  /\ 2 ^ 53 <> total / Z.of_nat (List.length (_hypers_discharge s)).
Proof.
  cbv zeta. split; [|split].
  - vm_compute. discriminate.
  - vm_compute. reflexivity.
  - vm_compute. discriminate.
Qed.

(** ** Negative targets *)

(** C10: a negative target takes the branch below 400 W; the first
    candidate is sent the negative amount as it is, every other candidate
    the stop command. *)
Theorem negative_target_unclamped (s : ZendureManager) (target : Z)
  (h0 : string) (rest : list string) :
  target < 0 ->
  (_hypers_charge s = h0 :: rest ->
     upd_charging target s
     = (Ok tt, s, Log (InfoCharging target) :: Command h0 1 target 0 :: map stop rest))
  /\ (_hypers_discharge s = h0 :: rest ->
     upd_discharging target s
     = (Ok tt, s, Log (InfoDischarging target) :: Command h0 0 0 target :: map stop rest)).
Proof.
  intros Hneg. split; intros E.
  - apply upd_charging_single; [assumption|lia].
  - apply upd_discharging_single; [assumption|lia].
Qed.

Lemma negative_target_unclamped_witness :
  let s := set_hypers_charge ["h1"; "h2"]%string
             (set_hypers_discharge ["h2"; "h1"]%string
                (init ["h1"; "h2"]%string "consumed" "produced" 0)) in
  upd_charging (-200) s
  = (Ok tt, s, [Log (InfoCharging (-200)); Command "h1" 1 (-200) 0; Command "h2" 0 0 0])
  /\ upd_discharging (-200) s
  = (Ok tt, s, [Log (InfoDischarging (-200)); Command "h2" 0 0 (-200); Command "h1" 0 0 0]).
Proof.
  intros s.
  split.
  - apply (proj1 (negative_target_unclamped s (-200) "h1"%string ["h2"]%string ltac:(lia))).
    reflexivity.
  - apply (proj2 (negative_target_unclamped s (-200) "h2"%string ["h1"]%string ltac:(lia))).
    reflexivity.
Defined.

(** ** All-stop on a mode change *)

Lemma commands_to_absent (h : string) (l : list string) :
  ~ In h l -> filter (is_command_to h) (map stop l) = [].
Proof.
  induction l as [|k t IH]; intros Hn; [reflexivity|].
  cbn [map filter stop is_command_to].
  destruct (String.eqb_spec k h) as [->|Hk].
  - exfalso. apply Hn. left; reflexivity.
  - apply IH. intros Hin. apply Hn. right; assumption.
Qed.

Lemma commands_to_once (h : string) (l : list string) :
  NoDup l -> In h l -> filter (is_command_to h) (map stop l) = [stop h].
Proof.
  induction 1 as [|k t Hk Hnd IH]; intros Hin; [contradiction|].
  cbn [map filter stop is_command_to].
  destruct (String.eqb_spec k h) as [->|Hne].
  - fold (stop h). f_equal. apply commands_to_absent. assumption.
  - apply IH. destruct Hin as [E|Hin]; [congruence|assumption].
Qed.

Lemma update_operation_stops (s : ZendureManager) (o : Z) :
  o <> 2 ->
  update_operation o s = (Ok tt, set_operation o s, map stop (hypers s)).
Proof.
  intros Ho. unfold update_operation, bind; cbn.
  replace (o =? 2) with false by (symmetry; apply Z.eqb_neq; assumption).
  cbn. rewrite for_each_update_power. reflexivity.
Qed.

Lemma update_operation_smart (s : ZendureManager) :
  update_operation 2 s = (Ok tt, set_operation 2 s, []).
Proof. reflexivity. Qed.

(** C7: a mode change that leaves smart matching (mode 2) or enters off
    (0) or manual (1) sends the stop command [Command h 0 0 0] to the devices
    of the catalog, one command per device and in catalog order; the ids of
    the catalog being distinct, every device gets it exactly once. *)
Theorem mode_change_stops_every_device (s : ZendureManager) (o : Z) :
  (operation s = 2 /\ o <> 2) \/ o = 0 \/ o = 1 ->
  update_operation o s = (Ok tt, set_operation o s, map stop (hypers s))
  /\ (NoDup (hypers s) ->
      forall h, In h (hypers s) ->
        filter (is_command_to h) (snd (update_operation o s)) = [Command h 0 0 0]).
Proof.
  intros Hmode.
  assert (Ho : o <> 2) by lia.
  split.
  - apply update_operation_stops; assumption.
  - intros Hnd h Hin. rewrite update_operation_stops by assumption.
    apply commands_to_once; assumption.
Qed.

Lemma mode_change_stops_every_device_witness :
  let s := set_operation 2 (init ["h1"; "h2"]%string "consumed" "produced" 0) in
  update_operation 0 s
  = (Ok tt, set_operation 0 s, [Command "h1" 0 0 0; Command "h2" 0 0 0])
  /\ filter (is_command_to "h2") (snd (update_operation 0 s)) = [Command "h2" 0 0 0].
Proof.
  intros s.
  assert (Hmode : (operation s = 2 /\ 0 <> 2) \/ 0 = 0 \/ 0 = 1)
    by (left; split; [reflexivity|lia]).
  assert (Hnd : NoDup (hypers s)).
  { repeat constructor; cbn; intuition discriminate. }
  destruct (mode_change_stops_every_device s 0 Hmode) as (Hall & Honce).
  split; [exact Hall|].
  apply (Honce Hnd). right; left; reflexivity.
Defined.

(** ** Sign convention *)

Lemma smart_matching_body (sigma : heap) (t_test t_set : Z) (event : Event)
  (s : ZendureManager) :
  operation s = 2 ->
  _update_energy_body sigma t_test t_set event s
  = ((if stale t_test s then recompute sigma t_set else ret tt) ;;
     rebalance sigma event) s.
Proof.
  intros Hop. unfold _update_energy_body. rewrite bind_get, Hop. reflexivity.
Qed.

Lemma idle_body (sigma : heap) (t_test t_set : Z) (event : Event) (s : ZendureManager) :
  operation s <> 2 ->
  _update_energy_body sigma t_test t_set event s = (Ok tt, s, []).
Proof.
  intros Hop. unfold _update_energy_body. rewrite bind_get.
  destruct (operation s =? 1); [reflexivity|].
  replace (operation s =? 2) with false by (symmetry; apply Z.eqb_neq; assumption).
  reflexivity.
Qed.

Lemma rebalance_discharging (sigma : heap) (event : Event) (s : ZendureManager) (p d : Z) :
  int_float_state event = Ok p -> p <> 0 ->
  sum sigma outputHomePower (_hypers_discharge s) = Ok d -> 0 < d ->
  rebalance sigma event s
  = (_LOGGER_info (InfoUpdateEnergy p) ;;
     upd_discharging
       (d + p * (if String.eqb (entity_id event) (consumed s) then 1 else -1))) s.
Proof.
  intros Hp Hnz Hd Hpos. unfold rebalance. rewrite Hp, bind_lift_ok.
  replace (p =? 0) with false by (symmetry; apply Z.eqb_neq; assumption).
  unfold _LOGGER_info. rewrite !bind_emit, bind_get, Hd, bind_lift_ok.
  replace (0 <? d) with true by (symmetry; apply Z.ltb_lt; assumption).
  reflexivity.
Qed.

Lemma rebalance_charging (sigma : heap) (event : Event) (s : ZendureManager) (p d c : Z) :
  int_float_state event = Ok p -> p <> 0 ->
  sum sigma outputHomePower (_hypers_discharge s) = Ok d -> d <= 0 ->
  sum sigma gridInputPower (_hypers_charge s) = Ok c -> 0 < c ->
  rebalance sigma event s
  = (_LOGGER_info (InfoUpdateEnergy p) ;;
     upd_charging
       (c + p * (if String.eqb (entity_id event) (consumed s) then -1 else 1))) s.
Proof.
  intros Hp Hnz Hd Hneg Hc Hpos. unfold rebalance. rewrite Hp, bind_lift_ok.
  replace (p =? 0) with false by (symmetry; apply Z.eqb_neq; assumption).
  unfold _LOGGER_info. rewrite !bind_emit, bind_get, Hd, bind_lift_ok.
  replace (0 <? d) with false by (symmetry; apply Z.ltb_ge; assumption).
  rewrite Hc, bind_lift_ok.
  replace (0 <? c) with true by (symmetry; apply Z.ltb_lt; assumption).
  reflexivity.
Qed.

(** C6: in the rebalancing step of smart matching, with a non-zero signal
    [p]: while the devices of the discharge list report a positive total
    output [d], a signal of the consumed meter calls the discharge allocation
    with [d + p] and a signal of the produced meter with [d - p]; while they
    report none and the devices of the charge list report a positive total
    input [c], the consumed meter calls the charge allocation with [c - p]
    and the produced meter with [c + p]. *)
Theorem sign_convention (sigma : heap) (event : Event) (s : ZendureManager) (p : Z) :
  int_float_state event = Ok p -> p <> 0 ->
  (forall d,
     sum sigma outputHomePower (_hypers_discharge s) = Ok d -> 0 < d ->
     (entity_id event = consumed s ->
        rebalance sigma event s
        = (_LOGGER_info (InfoUpdateEnergy p) ;; upd_discharging (d + p)) s)
     /\ (entity_id event = produced s -> produced s <> consumed s ->
        rebalance sigma event s
        = (_LOGGER_info (InfoUpdateEnergy p) ;; upd_discharging (d - p)) s))
  /\ (forall d c,
     sum sigma outputHomePower (_hypers_discharge s) = Ok d -> d <= 0 ->
     sum sigma gridInputPower (_hypers_charge s) = Ok c -> 0 < c ->
     (entity_id event = consumed s ->
        rebalance sigma event s
        = (_LOGGER_info (InfoUpdateEnergy p) ;; upd_charging (c - p)) s)
     /\ (entity_id event = produced s -> produced s <> consumed s ->
        rebalance sigma event s
        = (_LOGGER_info (InfoUpdateEnergy p) ;; upd_charging (c + p)) s)).
Proof.
  intros Hp Hnz. split.
  - intros d Hd Hpos.
    rewrite (rebalance_discharging sigma event s p d Hp Hnz Hd Hpos).
    split.
    + intros ->. rewrite String.eqb_refl.
      replace (d + p * 1) with (d + p) by lia. reflexivity.
    + intros -> Hne. apply String.eqb_neq in Hne. rewrite Hne.
      replace (d + p * -1) with (d - p) by lia. reflexivity.
  - intros d c Hd Hneg Hc Hpos.
    rewrite (rebalance_charging sigma event s p d c Hp Hnz Hd Hneg Hc Hpos).
    split.
    + intros ->. rewrite String.eqb_refl.
      replace (c + p * -1) with (c - p) by lia. reflexivity.
    + intros -> Hne. apply String.eqb_neq in Hne. rewrite Hne.
      replace (c + p * 1) with (c + p) by lia. reflexivity.
Qed.

(** One device discharging 300 W: 100 W more consumption gives the target
    400 W, 100 W more production the target 200 W. *)
Lemma sign_convention_witness :
  let sigma : heap := fun _ => mkHyper2000 (Some 80) (Some 10) (Some 100)
                                 (Some 1200) (Some 1200) (Some 0) (Some 300) in
  let s := set_hypers_discharge ["h1"]%string
             (set_operation 2 (init ["h1"]%string "consumed" "produced" 0)) in
  rebalance sigma (mkEvent "consumed" (Some (Number (100 # 1)))) s
  = (Ok tt, s, [Log (InfoUpdateEnergy 100); Log (InfoDischarging 400);
                Command "h1" 0 0 400])
  /\ rebalance sigma (mkEvent "produced" (Some (Number (100 # 1)))) s
  = (Ok tt, s, [Log (InfoUpdateEnergy 100); Log (InfoDischarging 200);
                Command "h1" 0 0 200]).
Proof.
  intros sigma s.
  assert (Hp : forall m, int_float_state (mkEvent m (Some (Number (100 # 1)))) = Ok 100)
    by reflexivity.
  assert (Hnz : 100 <> 0) by lia.
  assert (Hd : sum sigma outputHomePower (_hypers_discharge s) = Ok 300) by reflexivity.
  assert (Hpos : 0 < 300) by lia.
  split.
  - etransitivity; [|reflexivity].
    exact (proj1 (proj1 (sign_convention sigma
                           (mkEvent "consumed" (Some (Number (100 # 1)))) s 100
                           (Hp _) Hnz) 300 Hd Hpos) eq_refl).
  - assert (Hne : produced s <> consumed s) by discriminate.
    etransitivity; [|reflexivity].
    exact (proj2 (proj1 (sign_convention sigma
                           (mkEvent "produced" (Some (Number (100 # 1)))) s 100
                           (Hp _) Hnz) 300 Hd Hpos) eq_refl Hne).
Defined.

(** ** The ranking pass, case by case *)

Lemma recompute_cases (sigma : heap) (now : Z) (s : ZendureManager) :
  recompute sigma now s
  = let s1 := set_next_update (now + five_minutes) s in
    match rank_discharge sigma (hypers s) with
    | Raise e => (Raise e, s1, [])
    | Ok d =>
        let s2 := set_hypers_discharge d s1 in
        match rank_charge sigma (hypers s) with
        | Raise e => (Raise e, s2, [])
        | Ok c =>
            let s3 := set_hypers_charge c s2 in
            match sum sigma inputLimit c with
            | Raise e => (Raise e, s3, [])
            | Ok mc =>
                let s4 := set_max_charge mc s3 in
                match sum sigma outputLimit d with
                | Raise e => (Raise e, s4, [])
                | Ok md =>
                    (Ok tt, set_max_discharge md s4,
                     [Log (InfoValidCharging (List.length c) mc);
                      Log (InfoValidDischarging (List.length d) md)])
                end
            end
        end
    end.
Proof.
  unfold recompute. rewrite bind_modify, bind_get.
  change (hypers (set_next_update (now + five_minutes) s)) with (hypers s).
  destruct (rank_discharge sigma (hypers s)) as [d|e]; [|reflexivity].
  rewrite bind_lift_ok, bind_modify.
  destruct (rank_charge sigma (hypers s)) as [c|e]; [|reflexivity].
  rewrite bind_lift_ok, bind_modify.
  destruct (sum sigma inputLimit c) as [mc|e]; [|reflexivity].
  rewrite bind_lift_ok, bind_modify.
  destruct (sum sigma outputLimit d) as [md|e]; [|reflexivity].
  rewrite bind_lift_ok, bind_modify. reflexivity.
Qed.

(** ** Where commands go, and when none is sent *)

Lemma in_map_command (k : string) (f a b x y z : Z) (l : list string) :
  In (Command k f a b) (map (fun h => Command h x y z) l) -> In k l.
Proof.
  intros Hin. apply in_map_iff in Hin. destruct Hin as (h & E & Hh).
  inversion E; subst. assumption.
Qed.

Lemma sends_only_to_log (targets : list string) (r : log_record) (w : list effect) :
  sends_only_to targets w -> sends_only_to targets (Log r :: w).
Proof.
  intros H k f a b [E|Hin]; [discriminate|]. exact (H k f a b Hin).
Qed.

Lemma sends_only_to_nil (targets : list string) : sends_only_to targets [].
Proof. intros k f a b []. Qed.

Lemma sends_only_to_weaken (t1 t2 : list string) (w : list effect) :
  (forall k, In k t1 -> In k t2) -> sends_only_to t1 w -> sends_only_to t2 w.
Proof. intros Hsub H k f a b Hin. apply Hsub. exact (H k f a b Hin). Qed.

Lemma quiet_log (r : log_record) (w : list effect) : quiet w -> quiet (Log r :: w).
Proof. intros H x [<-|Hin]; [reflexivity|exact (H x Hin)]. Qed.

Lemma quiet_nil : quiet [].
Proof. intros x []. Qed.

Lemma quiet_app (w1 w2 : list effect) : quiet w1 -> quiet w2 -> quiet (w1 ++ w2).
Proof.
  intros H1 H2 x Hin. apply in_app_or in Hin. destruct Hin; [apply H1|apply H2]; assumption.
Qed.

Lemma quiet_sends (targets : list string) (w : list effect) :
  quiet w -> sends_only_to targets w.
Proof. intros H k f a b Hin. apply H in Hin. discriminate. Qed.

Lemma upd_charging_outcome (charge : Z) (s : ZendureManager) :
  exists r w, upd_charging charge s = (r, s, w)
    /\ sends_only_to (_hypers_charge s) w
    /\ (r <> Ok tt -> quiet w).
Proof.
  destruct (_hypers_charge s) as [|h0 rest] eqn:E.
  - rewrite upd_charging_empty by assumption. do 2 eexists. split; [reflexivity|].
    split; [apply sends_only_to_log, sends_only_to_nil|congruence].
  - destruct (Z.lt_ge_cases charge 400) as [H|H].
    + rewrite (upd_charging_single charge s h0 rest E H). do 2 eexists.
      split; [reflexivity|]. split; [|congruence].
      apply sends_only_to_log. intros k f a b [Hin|Hin].
      * inversion Hin; subst. left; reflexivity.
      * right. exact (in_map_command _ _ _ _ _ _ _ _ Hin).
    + rewrite (upd_charging_split charge s h0 rest E H).
      destruct (int_div_len charge (h0 :: rest)) as [w|e]; do 2 eexists;
        (split; [reflexivity|]).
      * split; [|congruence]. apply sends_only_to_log.
        intros k f a b Hin. exact (in_map_command _ _ _ _ _ _ _ _ Hin).
      * split; [apply sends_only_to_log, sends_only_to_nil|].
        intros _. apply quiet_log, quiet_nil.
Qed.

Lemma upd_discharging_outcome (discharge : Z) (s : ZendureManager) :
  exists r w, upd_discharging discharge s = (r, s, w)
    /\ sends_only_to (_hypers_discharge s) w
    /\ (r <> Ok tt -> quiet w).
Proof.
  destruct (_hypers_discharge s) as [|h0 rest] eqn:E.
  - rewrite upd_discharging_empty by assumption. do 2 eexists. split; [reflexivity|].
    split; [apply sends_only_to_log, sends_only_to_nil|congruence].
  - destruct (Z.lt_ge_cases discharge 400) as [H|H].
    + rewrite (upd_discharging_single discharge s h0 rest E H). do 2 eexists.
      split; [reflexivity|]. split; [|congruence].
      apply sends_only_to_log. intros k f a b [Hin|Hin].
      * inversion Hin; subst. left; reflexivity.
      * right. exact (in_map_command _ _ _ _ _ _ _ _ Hin).
    + rewrite (upd_discharging_split discharge s h0 rest E H).
      destruct (int_div_len discharge (h0 :: rest)) as [w|e]; do 2 eexists;
        (split; [reflexivity|]).
      * split; [|congruence]. apply sends_only_to_log.
        intros k f a b Hin. exact (in_map_command _ _ _ _ _ _ _ _ Hin).
      * split; [apply sends_only_to_log, sends_only_to_nil|].
        intros _. apply quiet_log, quiet_nil.
Qed.

(** The rebalancing step leaves the manager as it is, commands only ranked
    devices, and commands none when it raises. *)
Lemma rebalance_outcome (sigma : heap) (event : Event) (s : ZendureManager) :
  exists r w, rebalance sigma event s = (r, s, w)
    /\ sends_only_to (_hypers_charge s ++ _hypers_discharge s) w
    /\ (r <> Ok tt -> quiet w).
Proof.
  assert (Hc : forall c, exists r w, upd_charging c s = (r, s, w)
             /\ sends_only_to (_hypers_charge s ++ _hypers_discharge s) w
             /\ (r <> Ok tt -> quiet w)).
  { intros c. destruct (upd_charging_outcome c s) as (r & w & E & Hs & Hq).
    exists r, w. split; [assumption|split; [|assumption]].
    eapply sends_only_to_weaken; [|exact Hs]. intros k Hk. apply in_or_app. left; assumption. }
  assert (Hd : forall d, exists r w, upd_discharging d s = (r, s, w)
             /\ sends_only_to (_hypers_charge s ++ _hypers_discharge s) w
             /\ (r <> Ok tt -> quiet w)).
  { intros d. destruct (upd_discharging_outcome d s) as (r & w & E & Hs & Hq).
    exists r, w. split; [assumption|split; [|assumption]].
    eapply sends_only_to_weaken; [|exact Hs]. intros k Hk. apply in_or_app. right; assumption. }
  assert (Hnone : forall (r : result unit),
             sends_only_to (_hypers_charge s ++ _hypers_discharge s) []
             /\ (r <> Ok tt -> quiet [])).
  { intros r. split; [apply sends_only_to_nil|intros _; apply quiet_nil]. }
  assert (Hlog : forall (r : result unit) x w,
             sends_only_to (_hypers_charge s ++ _hypers_discharge s) w
             /\ (r <> Ok tt -> quiet w) ->
             sends_only_to (_hypers_charge s ++ _hypers_discharge s) (Log x :: w)
             /\ (r <> Ok tt -> quiet (Log x :: w))).
  { intros r x w (Hs & Hq). split; [apply sends_only_to_log; assumption|].
    intros Hr. apply quiet_log. auto. }
  unfold rebalance.
  destruct (int_float_state event) as [p|e];
    [rewrite bind_lift_ok|rewrite bind_lift_raise; do 2 eexists; split; [reflexivity|apply Hnone]].
  destruct (p =? 0); [do 2 eexists; split; [reflexivity|apply Hnone]|].
  unfold _LOGGER_info. rewrite bind_emit, bind_get.
  destruct (sum sigma outputHomePower (_hypers_discharge s)) as [d|e];
    [rewrite bind_lift_ok
    |rewrite bind_lift_raise; do 2 eexists; split; [reflexivity|apply Hlog, Hnone]].
  destruct (0 <? d).
  { destruct (Hd (d + p * (if String.eqb (entity_id event) (consumed s) then 1 else -1)))
      as (r & w & -> & H).
    do 2 eexists; split; [reflexivity|apply Hlog, H]. }
  destruct (sum sigma gridInputPower (_hypers_charge s)) as [c|e];
    [rewrite bind_lift_ok
    |rewrite bind_lift_raise; do 2 eexists; split; [reflexivity|apply Hlog, Hnone]].
  destruct (0 <? c).
  { destruct (Hc (c + p * (if String.eqb (entity_id event) (consumed s) then -1 else 1)))
      as (r & w & -> & H).
    do 2 eexists; split; [reflexivity|apply Hlog, H]. }
  destruct (String.eqb (entity_id event) (produced s)).
  - destruct (Hc p) as (r & w & -> & H).
    do 2 eexists; split; [reflexivity|apply Hlog, H].
  - destruct (Hd p) as (r & w & -> & H).
    do 2 eexists; split; [reflexivity|apply Hlog, H].
Qed.

(** ** Sorting by key *)

Section InsertionSort.

Context {A : Type}.
Variable before : Z -> Z -> bool.
Hypothesis before_total : forall x y, before x y = false -> before y x = true.
Hypothesis before_trans :
  forall x y z, before x y = true -> before y z = true -> before x z = true.

Lemma insert_by_perm (x : Z * A) (l : list (Z * A)) :
  Permutation (insert_by before x l) (x :: l).
Proof.
  induction l as [|y t IH]; cbn [insert_by]; [apply Permutation_refl|].
  destruct (before (fst x) (fst y)); [apply Permutation_refl|].
  eapply perm_trans; [apply perm_skip, IH|apply perm_swap].
Qed.

Lemma isort_perm (l : list (Z * A)) : Permutation (isort before l) l.
Proof.
  induction l as [|x t IH]; cbn [isort]; [apply perm_nil|].
  eapply perm_trans; [apply insert_by_perm|apply perm_skip, IH].
Qed.

Lemma insert_by_sorted (x : Z * A) (l : list (Z * A)) :
  StronglySorted (key_before before) l -> StronglySorted (key_before before) (insert_by before x l).
Proof.
  induction 1 as [|y t Hs IH Hall]; cbn [insert_by].
  - constructor; constructor.
  - destruct (before (fst x) (fst y)) eqn:E.
    + constructor; [constructor; assumption|].
      constructor; [exact E|].
      eapply Forall_impl; [|exact Hall].
      intros q Hq. unfold key_before in *. eapply before_trans; eassumption.
    + constructor; [exact IH|].
      apply (Permutation_Forall (Permutation_sym (insert_by_perm x t))).
      constructor; [|assumption].
      apply before_total. exact E.
Qed.

Lemma isort_sorted (l : list (Z * A)) : StronglySorted (key_before before) (isort before l).
Proof.
  induction l as [|x t IH]; cbn [isort]; [constructor|].
  apply insert_by_sorted. exact IH.
Qed.

(** Stability: the elements of any one key come out in the order they went
    in, which with the two lemmas above determines the sorted list. *)
Hypothesis before_refl : forall x, before x x = true.

Lemma insert_by_stable (x : Z * A) (l : list (Z * A)) (z : Z) :
  filter (fun p => fst p =? z) (insert_by before x l)
  = filter (fun p => fst p =? z) (x :: l).
Proof.
  induction l as [|y t IH]; cbn [insert_by]; [reflexivity|].
  destruct (before (fst x) (fst y)) eqn:E; [reflexivity|].
  cbn [filter] in *. rewrite IH.
  destruct (Z.eqb_spec (fst x) z) as [Hx|Hx], (Z.eqb_spec (fst y) z) as [Hy|Hy];
    try reflexivity.
  rewrite Hx, Hy, before_refl in E. discriminate.
Qed.

Lemma isort_stable (l : list (Z * A)) (z : Z) :
  filter (fun p => fst p =? z) (isort before l) = filter (fun p => fst p =? z) l.
Proof.
  induction l as [|x t IH]; cbn [isort]; [reflexivity|].
  rewrite insert_by_stable. cbn [filter]. rewrite IH. reflexivity.
Qed.

End InsertionSort.

Lemma map_r_known (sigma : heap) (key : Hyper2000 -> state) (l : list string) :
  (forall h, In h l -> key (sigma h) <> None) ->
  map_r (fun h => known (key (sigma h))) l = Ok (map (fun h => value (key (sigma h))) l).
Proof.
  induction l as [|h t IH]; intros Hk; [reflexivity|].
  cbn [map_r map].
  destruct (key (sigma h)) as [z|] eqn:E.
  - cbn. rewrite IH by (intros k Hin; apply Hk; right; assumption). reflexivity.
  - exfalso. apply (Hk h); [left; reflexivity|assumption].
Qed.

Lemma combine_map_snd {A B} (f : A -> B) (l : list A) :
  map snd (combine (map f l) l) = l.
Proof. induction l as [|x t IH]; [reflexivity|]. cbn. rewrite IH. reflexivity. Qed.

Lemma combine_map_keyed {A B} (f : A -> B) (l : list A) :
  Forall (fun p => fst p = f (snd p)) (combine (map f l) l).
Proof. induction l as [|x t IH]; cbn; constructor; [reflexivity|assumption]. Qed.

(** [sorted] on devices whose key is known: a permutation of the list,
    ordered by the key. *)
Lemma sorted_known (sigma : heap) (key : Hyper2000 -> state) (reverse : bool)
  (l : list string) :
  (forall h, In h l -> key (sigma h) <> None) ->
  exists l',
    sorted sigma key reverse l = Ok l'
    /\ Permutation l' l
    /\ StronglySorted
         (fun a b => (if reverse then Z.geb else Z.leb)
                       (value (key (sigma a))) (value (key (sigma b))) = true) l'.
Proof.
  intros Hk.
  set (before := if reverse then Z.geb else Z.leb).
  set (f := fun h => value (key (sigma h))).
  assert (Htot : forall x y, before x y = false -> before y x = true).
  { intros x y. unfold before. destruct reverse; rewrite ?Z.geb_leb, ?Z.leb_gt, ?Z.leb_le; lia. }
  assert (Htr : forall x y z, before x y = true -> before y z = true -> before x z = true).
  { intros x y z. unfold before. destruct reverse; rewrite ?Z.geb_leb, ?Z.leb_le; lia. }
  exists (map snd (isort before (combine (map f l) l))).
  split; [|split].
  - destruct l as [|h [|h' t]]; [reflexivity|reflexivity|].
    unfold sorted. rewrite (map_r_known sigma key _ Hk). reflexivity.
  - eapply perm_trans; [apply Permutation_map, isort_perm|].
    rewrite combine_map_snd. apply Permutation_refl.
  - pose proof (isort_sorted before Htot Htr (combine (map f l) l)) as Hs.
    pose proof (Permutation_Forall (Permutation_sym (isort_perm before (combine (map f l) l)))
                  (combine_map_keyed f l)) as Hkeyed.
    induction Hs as [|p t Hs IH Hall]; cbn [map]; [constructor|].
    inversion Hkeyed as [|? ? Hp Ht]; subst.
    constructor; [apply IH; assumption|].
    apply Forall_map. rewrite Forall_forall in *.
    intros q Hq. specialize (Hall q Hq). specialize (Ht q Hq).
    unfold key_before in Hall. rewrite Hp, Ht in Hall. exact Hall.
Qed.

(** Whatever the keys, a list that [sorted] returns is a permutation. *)
Lemma sorted_perm (sigma : heap) (key : Hyper2000 -> state) (reverse : bool)
  (l l' : list string) :
  sorted sigma key reverse l = Ok l' -> Permutation l' l.
Proof.
  destruct l as [|h [|h' t]]; cbn [sorted].
  - intros E; inversion E; apply Permutation_refl.
  - intros E; inversion E; apply Permutation_refl.
  - destruct (map_r _ _) as [ks|e] eqn:Eks; [|discriminate].
    cbn [rbind]. intros E; inversion E; subst; clear E.
    assert (Hlen : List.length ks = List.length (h :: h' :: t)).
    { clear - Eks. revert ks Eks. generalize (h :: h' :: t) as l.
      induction l as [|x l IH]; cbn [map_r]; intros ks E.
      - inversion E; reflexivity.
      - destruct (known _) as [z|]; [|discriminate]. cbn [rbind] in E.
        destruct (map_r _ l) as [ks'|]; [|discriminate]. cbn [rbind] in E.
        inversion E; subst. cbn [List.length]. rewrite (IH ks' eq_refl). reflexivity. }
    eapply perm_trans; [apply Permutation_map, isort_perm|].
    clear Eks. revert ks Hlen. generalize (h :: h' :: t) as l.
    induction l as [|x l IH]; intros [|k ks] Hlen; try discriminate; cbn.
    + apply perm_nil.
    + apply perm_skip. apply IH. cbn in Hlen. congruence.
Qed.

(** ** Filtering with a test that may raise *)

Lemma filter_r_in {A} (p : A -> result bool) (l l' : list A) :
  filter_r p l = Ok l' -> forall k, In k l' -> In k l /\ p k = Ok true.
Proof.
  revert l'. induction l as [|x t IH]; cbn [filter_r]; intros l' E k Hin.
  - inversion E; subst. contradiction.
  - destruct (p x) as [b|] eqn:Ex; [|discriminate]. cbn [rbind] in E.
    destruct (filter_r p t) as [t'|]; [|discriminate]. cbn [rbind] in E.
    inversion E; subst; clear E.
    destruct b.
    + destruct Hin as [<-|Hin]; [split; [left; reflexivity|assumption]|].
      destruct (IH t' eq_refl k Hin). split; [right|]; assumption.
    + destruct (IH t' eq_refl k Hin). split; [right|]; assumption.
Qed.

Lemma filter_r_total {A} (p : A -> result bool) (q : A -> bool) (l : list A) :
  (forall h, In h l -> p h = Ok (q h)) -> filter_r p l = Ok (filter q l).
Proof.
  induction l as [|x t IH]; intros H; [reflexivity|].
  cbn [filter_r filter]. rewrite (H x) by (left; reflexivity). cbn [rbind].
  rewrite IH by (intros h Hin; apply H; right; assumption). reflexivity.
Qed.

Lemma filter_r_raises {A} (p : A -> result bool) (l : list A) (k : A) :
  In k l -> (exists e, p k = Raise e) -> exists e, filter_r p l = Raise e.
Proof.
  induction l as [|x t IH]; intros Hin Hk; [contradiction|].
  cbn [filter_r]. destruct (p x) as [b|e] eqn:Ex; [|eexists; reflexivity].
  cbn [rbind]. destruct Hin as [->|Hin].
  - destruct Hk as (e & Hk). congruence.
  - destruct (IH Hin Hk) as (e & ->). eexists; reflexivity.
Qed.

Lemma gt_float_unknown (y : state) : exists e, gt_float None y = Raise e.
Proof.
  unfold gt_float. destruct y as [yv|]; [|eexists; reflexivity].
  destruct (PyNum.float_of_int yv); eexists; reflexivity.
Qed.

Lemma gt_float_known (x y : state) (b : bool) : gt_float x y = Ok b -> x <> None.
Proof.
  intros E ->. destruct (gt_float_unknown y) as (e & He). congruence.
Qed.

Lemma lt_float_known (x y : state) (b : bool) : lt_float x y = Ok b -> x <> None.
Proof.
  unfold lt_float. intros E ->. destruct y as [yv|]; [|discriminate].
  destruct (PyNum.float_of_int yv); discriminate.
Qed.

(** A device without a known level makes the ranking raise. *)
Lemma rank_discharge_unknown (sigma : heap) (ids : list string) (k : string) :
  In k ids -> electricLevel (sigma k) = None ->
  exists e, rank_discharge sigma ids = Raise e.
Proof.
  intros Hin Hk. unfold rank_discharge.
  destruct (filter_r_raises
              (fun h => gt_float (electricLevel (sigma h)) (minSoc (sigma h))) ids k Hin)
    as (e & ->).
  - rewrite Hk. apply gt_float_unknown.
  - eexists; reflexivity.
Qed.

(** Ranked devices come from the catalog and have a known level. *)
Lemma rank_discharge_in (sigma : heap) (ids d : list string) :
  rank_discharge sigma ids = Ok d ->
  forall k, In k d -> In k ids /\ electricLevel (sigma k) <> None.
Proof.
  unfold rank_discharge. intros E k Hin.
  destruct (filter_r _ ids) as [l|] eqn:El; [|discriminate]. cbn [rbind] in E.
  apply sorted_perm in E.
  destruct (filter_r_in _ _ _ El k (Permutation_in k E Hin)) as (Hk & Hp).
  split; [assumption|]. eapply gt_float_known. exact Hp.
Qed.

Lemma rank_charge_in (sigma : heap) (ids c : list string) :
  rank_charge sigma ids = Ok c ->
  forall k, In k c -> In k ids /\ electricLevel (sigma k) <> None.
Proof.
  unfold rank_charge. intros E k Hin.
  destruct (filter_r _ ids) as [l|] eqn:El; [|discriminate]. cbn [rbind] in E.
  apply sorted_perm in E.
  destruct (filter_r_in _ _ _ El k (Permutation_in k E Hin)) as (Hk & Hp).
  split; [assumption|]. eapply lt_float_known. exact Hp.
Qed.

(** ** One power signal, as a whole *)

Lemma recompute_outcome (sigma : heap) (now : Z) (s : ZendureManager) :
  exists r s' w,
    recompute sigma now s = (r, s', w)
    /\ quiet w
    /\ next_update s' = now + five_minutes
    /\ hypers s' = hypers s /\ operation s' = operation s
    /\ (forall k, In k (_hypers_discharge s') ->
          In k (_hypers_discharge s)
          \/ exists d, rank_discharge sigma (hypers s) = Ok d /\ In k d)
    /\ (forall k, In k (_hypers_charge s') ->
          In k (_hypers_charge s)
          \/ exists c, rank_charge sigma (hypers s) = Ok c /\ In k c)
    /\ (r = Ok tt -> _hypers_charge s' <> [] ->
          exists c, rank_charge sigma (hypers s) = Ok c /\ _hypers_charge s' = c).
Proof.
  rewrite recompute_cases. cbv zeta.
  destruct (rank_discharge sigma (hypers s)) as [d|e] eqn:Ed.
  2:{ do 3 eexists. split; [reflexivity|]. cbn.
      repeat split; auto using quiet_nil; discriminate. }
  destruct (rank_charge sigma (hypers s)) as [c|e] eqn:Ec.
  2:{ do 3 eexists. split; [reflexivity|]. cbn.
      repeat split; eauto using quiet_nil; discriminate. }
  assert (Hq : quiet [Log (InfoValidCharging (List.length c) 0)]
               /\ forall a b, quiet [Log a; Log b]).
  { split; [apply quiet_log, quiet_nil|intros; apply quiet_log, quiet_log, quiet_nil]. }
  destruct (sum sigma inputLimit c) as [mc|e].
  2:{ do 3 eexists. split; [reflexivity|]. cbn.
      repeat split; eauto using quiet_nil; discriminate. }
  destruct (sum sigma outputLimit d) as [md|e].
  2:{ do 3 eexists. split; [reflexivity|]. cbn.
      repeat split; eauto using quiet_nil; discriminate. }
  do 3 eexists. split; [reflexivity|]. cbn.
  repeat split; eauto. apply Hq.
Qed.

Lemma body_dispatch (sigma : heap) (t_test t_set : Z) (event : Event) (s : ZendureManager) :
  _update_energy_body sigma t_test t_set event s
  = (if recomputes t_test s then recompute sigma t_set ;; rebalance sigma event
     else if operation s =? 2 then rebalance sigma event
     else ret tt) s.
Proof.
  unfold recomputes.
  destruct (Z.eqb_spec (operation s) 2) as [Hop|Hop].
  - rewrite smart_matching_body by assumption. cbn [andb].
    destruct (stale t_test s); [reflexivity|].
    exact (bind_ret tt (fun _ => rebalance sigma event) s).
  - cbn [andb]. apply idle_body. assumption.
Qed.

Lemma body_outcome (sigma : heap) (t_test t_set : Z) (event : Event) (s : ZendureManager) :
  exists r s' w,
    _update_energy_body sigma t_test t_set event s = (r, s', w)
    /\ sends_only_to (_hypers_charge s' ++ _hypers_discharge s') w
    /\ (r <> Ok tt -> quiet w)
    /\ (recomputes t_test s = false -> s' = s)
    /\ (recomputes t_test s = true ->
        exists r1 w1, recompute sigma t_set s = (r1, s', w1)).
Proof.
  rewrite body_dispatch.
  destruct (recomputes t_test s).
  - destruct (recompute_outcome sigma t_set s) as (r1 & s1 & w1 & E1 & Hq1 & _).
    unfold bind. rewrite E1.
    destruct r1 as [[]|e].
    + destruct (rebalance_outcome sigma event s1) as (r2 & w2 & E2 & Hs2 & Hq2).
      rewrite E2. do 3 eexists. split; [reflexivity|].
      split; [|split; [|split; [discriminate|eauto]]].
      * intros k f a b Hin. apply in_app_or in Hin. destruct Hin as [Hin|Hin].
        -- apply Hq1 in Hin. discriminate.
        -- exact (Hs2 k f a b Hin).
      * intros Hr. apply quiet_app; auto.
    + do 3 eexists. split; [reflexivity|].
      split; [apply quiet_sends; assumption|split; [auto|split; [discriminate|eauto]]].
  - destruct (operation s =? 2).
    + destruct (rebalance_outcome sigma event s) as (r2 & w2 & E2 & Hs2 & Hq2).
      rewrite E2. do 3 eexists. split; [reflexivity|].
      split; [assumption|split; [assumption|split; [reflexivity|discriminate]]].
    + do 3 eexists. split; [reflexivity|].
      split; [apply sends_only_to_nil|split; [intros _; apply quiet_nil|]].
      split; [reflexivity|discriminate].
Qed.

(** What escapes the handler. *)
Lemma handler_outcome (sigma : heap) (t_test t_set : Z) (event : Event) (s : ZendureManager) :
  _update_energy sigma t_test t_set event s
  = match _update_energy_body sigma t_test t_set event s with
    | (Ok a, s1, w1) => (Ok a, s1, w1)
    | (Raise e, s1, w1) => (Raise NameError, s1, w1 ++ [Log (Error e)])
    end.
Proof.
  unfold _update_energy, try_except.
  destruct (_update_energy_body sigma t_test t_set event s) as [[[a|e] s1] w1]; reflexivity.
Qed.

Lemma update_energy_outcome (sigma : heap) (t_test t_set : Z) (event : Event)
  (s : ZendureManager) :
  exists r s' w,
    _update_energy sigma t_test t_set event s = (r, s', w)
    /\ sends_only_to (_hypers_charge s' ++ _hypers_discharge s') w
    /\ (r <> Ok tt -> quiet w)
    /\ (recomputes t_test s = false -> s' = s)
    /\ (recomputes t_test s = true ->
        exists r1 w1, recompute sigma t_set s = (r1, s', w1)).
Proof.
  rewrite handler_outcome.
  destruct (body_outcome sigma t_test t_set event s) as (r & s' & w & E & Hs & Hq & Hk & Hr).
  rewrite E. destruct r as [[]|e].
  - do 3 eexists. split; [reflexivity|]. auto.
  - assert (Hw : quiet (w ++ [Log (Error e)])).
    { apply quiet_app; [apply Hq; discriminate|apply quiet_log, quiet_nil]. }
    do 3 eexists. split; [reflexivity|].
    split; [apply quiet_sends; assumption|auto].
Qed.

(** ** Staleness and the freshness deadline *)

Lemma stale_spec (now : Z) (s : ZendureManager) :
  stale now s = true <-> _hypers_charge s = [] \/ next_update s < now.
Proof.
  unfold stale. rewrite orb_true_iff, andb_true_iff, Z.ltb_lt.
  destruct (_hypers_charge s); cbn; intuition (congruence || discriminate).
Qed.

Lemma recompute_deadline (sigma : heap) (now : Z) (s : ZendureManager) :
  next_update (snd (fst (recompute sigma now s))) = now + five_minutes.
Proof.
  destruct (recompute_outcome sigma now s) as (r & s' & w & E & _ & Hn & _).
  rewrite E. exact Hn.
Qed.

Lemma update_energy_deadline (sigma : heap) (t_test t_set : Z) (event : Event)
  (s : ZendureManager) :
  recomputes t_test s = true ->
  next_update (snd (fst (_update_energy sigma t_test t_set event s))) = t_set + five_minutes.
Proof.
  intros Hr.
  destruct (update_energy_outcome sigma t_test t_set event s)
    as (r & s' & w & E & _ & _ & _ & Hrec).
  destruct (Hrec Hr) as (r1 & w1 & E1).
  rewrite E. cbn [fst snd]. pose proof (recompute_deadline sigma t_set s) as Hd.
  rewrite E1 in Hd. exact Hd.
Qed.

(** C1, on the code: the staleness test reads the charge list twice and the
    discharge list never.  With an empty charge list the ranking pass is
    entered and the deadline reset although the discharge list is not empty
    and the deadline has not elapsed. *)
Theorem stale_ignores_discharge_list (sigma : heap) (t_test t_set : Z) (event : Event)
  (s : ZendureManager) :
  operation s = 2 ->
  _hypers_charge s = [] -> _hypers_discharge s <> [] -> t_test <= next_update s ->
  recomputes t_test s = true
  /\ next_update (snd (fst (_update_energy sigma t_test t_set event s)))
     = t_set + five_minutes.
Proof.
  intros Hop Hc _ _.
  assert (Hr : recomputes t_test s = true).
  { unfold recomputes. rewrite Hop. cbn [Z.eqb Pos.eqb andb].
    apply stale_spec. left; assumption. }
  split; [assumption|]. apply update_energy_deadline. assumption.
Qed.

(** All devices full: nothing may charge, one device may discharge and was
    ranked a second ago; the next signal ranks again. *)
Lemma stale_ignores_discharge_list_witness :
  let sigma : heap := fun _ => mkHyper2000 (Some 100) (Some 10) (Some 100)
                                 (Some 1200) (Some 1200) (Some 0) (Some 0) in
  let s := mkManager ["h1"]%string "consumed" "produced" 300000000 2
             [] ["h1"]%string 0 1200 in
  let event := mkEvent "consumed" (Some (Number (50 # 1))) in
  recomputes 1000000 s = true
  /\ next_update (snd (fst (_update_energy sigma 1000000 1000001 event s)))
     = 1000001 + five_minutes.
Proof.
  intros sigma s event.
  apply (stale_ignores_discharge_list sigma 1000000 1000001 event s).
  - reflexivity.
  - reflexivity.
  - discriminate.
  - cbn. lia.
Defined.

(** ** Exceptions in a decision *)

(** C2, on the code: when the decision raises, the exception is logged and
    no command has been sent, but the handler itself raises [NameError]
    (the unbound name [traceback]), which escapes [_update_energy]. *)
Theorem failed_decision_escapes (sigma : heap) (t_test t_set : Z) (event : Event)
  (s s1 : ZendureManager) (e : exn) (w1 : list effect) :
  _update_energy_body sigma t_test t_set event s = (Raise e, s1, w1) ->
  _update_energy sigma t_test t_set event s
  = (Raise NameError, s1, w1 ++ [Log (Error e)])
  /\ quiet (w1 ++ [Log (Error e)]).
Proof.
  intros E. rewrite handler_outcome, E. split; [reflexivity|].
  destruct (body_outcome sigma t_test t_set event s) as (r & s' & w & E' & _ & Hq & _).
  rewrite E in E'. inversion E'; subst.
  apply quiet_app; [apply Hq; discriminate|apply quiet_log, quiet_nil].
Qed.

(** The consumed meter becomes unavailable while the fleet is ranked. *)
Lemma failed_decision_escapes_witness :
  let sigma : heap := fun _ => mkHyper2000 (Some 80) (Some 10) (Some 100)
                                 (Some 1200) (Some 1200) (Some 0) (Some 300) in
  let s := mkManager ["h1"]%string "consumed" "produced" 300000000 2
             ["h1"]%string ["h1"]%string 1200 1200 in
  let event := mkEvent "consumed" (Some NotNumeric) in
  _update_energy sigma 1000000 1000001 event s
  = (Raise NameError, s, [Log (Error ValueError)]).
Proof.
  intros sigma s event.
  apply (proj1 (failed_decision_escapes sigma 1000000 1000001 event s s ValueError [] eq_refl)).
Defined.

(** ** Freshness caching *)

Lemma exec_fresh (T : Z) (c : call) (s : ZendureManager) :
  read_by T c -> _hypers_charge s <> [] -> T <= next_update s ->
  let s' := snd (fst (exec c s)) in
  _hypers_charge s' <> [] /\ T <= next_update s'.
Proof.
  intros Hc Hne Hd. destruct c as [sigma t t' ev|o]; cbn [exec read_by] in *.
  - assert (Hr : recomputes t s = false).
    { unfold recomputes. apply andb_false_iff. right.
      destruct (stale t s) eqn:Est; [|reflexivity].
      apply stale_spec in Est. destruct Est; [contradiction|lia]. }
    destruct (update_energy_outcome sigma t t' ev s) as (r & s' & w & E & _ & _ & Hk & _).
    rewrite E. cbn [fst snd]. rewrite (Hk Hr). split; assumption.
  - destruct (Z.eq_dec o 2) as [->|Ho].
    + rewrite update_operation_smart. split; assumption.
    + rewrite update_operation_stops by assumption. split; assumption.
Qed.

Lemma run_fresh (T : Z) (cs : list call) (s : ZendureManager) :
  (forall c, In c cs -> read_by T c) ->
  _hypers_charge s <> [] -> T <= next_update s ->
  let s' := fst (run cs s) in
  _hypers_charge s' <> [] /\ T <= next_update s'.
Proof.
  revert s. induction cs as [|c t IH]; intros s Hcs Hne Hd; [split; assumption|].
  cbn [run].
  destruct (exec_fresh T c s (Hcs c (or_introl eq_refl)) Hne Hd) as (Hne1 & Hd1).
  destruct (exec c s) as [[r s1] w1]. cbn [fst snd] in *.
  destruct (IH s1 (fun c' H => Hcs c' (or_intror H)) Hne1 Hd1) as (Hne2 & Hd2).
  destruct (run t s1) as [s2 w2]. split; assumption.
Qed.

(** C9, as the code has it: once a power signal has ranked the fleet and
    left a non-empty charge list, no power signal that reads the clock within
    five minutes of it ranks again, whatever calls come in between. *)
Theorem one_recomputation_per_window (sigma : heap) (t_test t_set : Z) (event : Event)
  (s : ZendureManager) (between : list call) (t_later : Z) :
  t_test <= t_set ->
  recomputes t_test s = true ->
  _hypers_charge (snd (fst (_update_energy sigma t_test t_set event s))) <> [] ->
  (forall c, In c between -> read_by (t_test + five_minutes) c) ->
  t_later <= t_test + five_minutes ->
  recomputes t_later
    (fst (run between (snd (fst (_update_energy sigma t_test t_set event s))))) = false.
Proof.
  intros Hclock Hr Hne Hbetween Hlater.
  pose proof (update_energy_deadline sigma t_test t_set event s Hr) as Hd.
  set (s1 := snd (fst (_update_energy sigma t_test t_set event s))) in *.
  destruct (run_fresh (t_test + five_minutes) between s1 Hbetween Hne ltac:(lia))
    as (Hne' & Hd').
  unfold recomputes. apply andb_false_iff. right.
  destruct (stale t_later _) eqn:Est; [|reflexivity].
  apply stale_spec in Est. destruct Est; [contradiction|lia].
Qed.

Lemma one_recomputation_per_window_witness :
  let sigma : heap := fun _ => mkHyper2000 (Some 50) (Some 10) (Some 100)
                                 (Some 1200) (Some 1200) (Some 0) (Some 0) in
  let s := set_operation 2 (init ["h1"]%string "consumed" "produced" 0) in
  let event := mkEvent "consumed" (Some (Number (50 # 1))) in
  recomputes 200000000
    (fst (run [PowerSignal sigma 100000000 100000001 event]
              (snd (fst (_update_energy sigma 1000000 1000001 event s))))) = false.
Proof.
  intros sigma s event.
  apply (one_recomputation_per_window sigma 1000000 1000001 event s).
  - lia.
  - reflexivity.
  - vm_compute. discriminate.
  - intros c [<-|[]]. cbn. lia.
  - cbn. lia.
Defined.

(** C9, as the claim states it, fails when a ranking leaves both lists
    empty: here the only device is neither below its charge target nor above
    its discharge floor, and two signals ten seconds apart both rank. *)
Lemma two_recomputations_in_one_window :
  let sigma : heap := fun _ => mkHyper2000 (Some 50) (Some 50) (Some 50)
                                 (Some 1200) (Some 1200) (Some 0) (Some 0) in
  let s := set_operation 2 (init ["h1"]%string "consumed" "produced" 0) in
  let event := mkEvent "consumed" (Some (Number (50 # 1))) in
  let s1 := snd (fst (_update_energy sigma 1000000 1000001 event s)) in
  11000000 <= 1000000 + five_minutes
  /\ recomputes 1000000 s = true
  /\ recomputes 11000000 s1 = true
  /\ snd (run [PowerSignal sigma 1000000 1000001 event;
               PowerSignal sigma 11000000 11000001 event] s)
     = [Log (InfoValidCharging 0 0); Log (InfoValidDischarging 0 0);
        Log (InfoUpdateEnergy 50); Log (InfoDischarging 50);
        Log (InfoValidCharging 0 0); Log (InfoValidDischarging 0 0);
        Log (InfoUpdateEnergy 50); Log (InfoDischarging 50)].
Proof.
  cbv zeta. split; [|split; [|split]].
  - vm_compute. discriminate.
  - vm_compute. reflexivity.
  - vm_compute. reflexivity.
  - vm_compute. reflexivity.
Qed.

(** ** Devices whose state is unknown *)

Lemma exec_keeps_unknown_out (k : string) (c : call) (s : ZendureManager) :
  unknown_to k c ->
  ~ In k (_hypers_charge s) -> ~ In k (_hypers_discharge s) ->
  let s' := snd (fst (exec c s)) in
  ~ In k (_hypers_charge s') /\ ~ In k (_hypers_discharge s').
Proof.
  intros Hk Hc Hd. destruct c as [sigma t t' ev|o]; cbn [exec unknown_to] in *.
  - destruct (update_energy_outcome sigma t t' ev s) as (r & s' & w & E & _ & _ & Hkeep & Hrec).
    rewrite E. cbn [fst snd].
    destruct (recomputes t s).
    + destruct (Hrec eq_refl) as (r1 & w1 & E1).
      destruct (recompute_outcome sigma t' s)
        as (r2 & s2 & w2 & E2 & _ & _ & _ & _ & Hdis & Hch & _).
      rewrite E1 in E2. inversion E2; subst. split.
      * intros Hin. destruct (Hch k Hin) as [Hold|(c & Ec & Hkc)]; [contradiction|].
        destruct (rank_charge_in sigma _ c Ec k Hkc). contradiction.
      * intros Hin. destruct (Hdis k Hin) as [Hold|(d & Ed & Hkd)]; [contradiction|].
        destruct (rank_discharge_in sigma _ d Ed k Hkd). contradiction.
    + rewrite (Hkeep eq_refl). split; assumption.
  - destruct (Z.eq_dec o 2) as [->|Ho].
    + rewrite update_operation_smart. split; assumption.
    + rewrite update_operation_stops by assumption. split; assumption.
Qed.

Lemma run_keeps_unknown_out (k : string) (cs : list call) (s : ZendureManager) :
  (forall c, In c cs -> unknown_to k c) ->
  ~ In k (_hypers_charge s) -> ~ In k (_hypers_discharge s) ->
  let s' := fst (run cs s) in
  ~ In k (_hypers_charge s') /\ ~ In k (_hypers_discharge s').
Proof.
  revert s. induction cs as [|c t IH]; intros s Hcs Hc Hd; [split; assumption|].
  cbn [run].
  destruct (exec_keeps_unknown_out k c s (Hcs c (or_introl eq_refl)) Hc Hd) as (Hc1 & Hd1).
  destruct (exec c s) as [[r s1] w1]. cbn [fst snd] in *.
  destruct (IH s1 (fun c' H => Hcs c' (or_intror H)) Hc1 Hd1) as (Hc2 & Hd2).
  destruct (run t s1) as [s2 w2]. split; assumption.
Qed.

Lemma exec_commands_unknown (k : string) (c : call) (s : ZendureManager) :
  unknown_to k c ->
  ~ In k (_hypers_charge s) -> ~ In k (_hypers_discharge s) ->
  forall f a b, In (Command k f a b) (snd (exec c s)) ->
    match c with
    | PowerSignal _ _ _ _ => False
    | SetOperation _ => f = 0 /\ a = 0 /\ b = 0
    end.
Proof.
  intros Hk Hc Hd f a b Hin.
  pose proof (exec_keeps_unknown_out k c s Hk Hc Hd) as (Hc' & Hd').
  destruct c as [sigma t t' ev|o]; cbn [exec] in *.
  - destruct (update_energy_outcome sigma t t' ev s) as (r & s' & w & E & Hsend & _).
    rewrite E in *. cbn [fst snd] in *.
    apply Hsend in Hin. apply in_app_or in Hin. destruct Hin; contradiction.
  - destruct (Z.eq_dec o 2) as [->|Ho].
    + rewrite update_operation_smart in Hin. destruct Hin.
    + rewrite update_operation_stops in Hin by assumption. cbn [snd] in Hin.
      apply in_map_iff in Hin. destruct Hin as (h & E & _).
      inversion E; subst. repeat split; reflexivity.
Qed.

Lemma run_commands_unknown (k : string) (cs : list call) (s : ZendureManager) :
  (forall c, In c cs -> unknown_to k c) ->
  ~ In k (_hypers_charge s) -> ~ In k (_hypers_discharge s) ->
  forall f a b, In (Command k f a b) (snd (run cs s)) -> f = 0 /\ a = 0 /\ b = 0.
Proof.
  revert s. induction cs as [|c t IH]; intros s Hcs Hc Hd f a b Hin; [destruct Hin|].
  cbn [run] in Hin.
  pose proof (exec_keeps_unknown_out k c s (Hcs c (or_introl eq_refl)) Hc Hd) as (Hc1 & Hd1).
  pose proof (exec_commands_unknown k c s (Hcs c (or_introl eq_refl)) Hc Hd f a b) as Hone.
  destruct (exec c s) as [[r s1] w1]. cbn [fst snd] in *.
  pose proof (IH s1 (fun c' H => Hcs c' (or_intror H)) Hc1 Hd1 f a b) as Hrest.
  destruct (run t s1) as [s2 w2]. cbn [snd] in *.
  apply in_app_or in Hin. destruct Hin as [Hin|Hin]; [|auto].
  specialize (Hone Hin). destruct c; [contradiction|assumption].
Qed.

(** While a device of the catalog has no known level, the ranking pass
    raises at the first comparison with it: the deadline is reset, the lists
    and limits stay as they were. *)
Lemma recompute_unknown (sigma : heap) (now : Z) (s : ZendureManager) (k : string) :
  In k (hypers s) -> electricLevel (sigma k) = None ->
  exists e, recompute sigma now s
            = (Raise e, set_next_update (now + five_minutes) s, []).
Proof.
  intros Hin Hk. rewrite recompute_cases. cbv zeta.
  destruct (rank_discharge_unknown sigma (hypers s) k Hin Hk) as (e & ->).
  exists e. reflexivity.
Qed.

(** C3, as the code has it: as long as the level of a device is unknown at
    every power signal, the device is in neither ranked list and no power
    signal sends it a command; the only commands it gets are the stop
    commands of mode changes.  This holds along every run of power signals and
    mode changes from the initial state of the manager.  While such a device
    is in the catalog, the ranking pass raises and ranks no device at all. *)
Theorem unknown_device_never_ranked (k : string) (ids : list string)
  (consumed produced : string) (now : Z) (cs : list call) :
  (forall c, In c cs -> unknown_to k c) ->
  let s := fst (run cs (init ids consumed produced now)) in
  ~ In k (_hypers_charge s)
  /\ ~ In k (_hypers_discharge s)
  /\ (forall sigma t_test t_set event,
        electricLevel (sigma k) = None ->
        forall f a b,
          ~ In (Command k f a b) (snd (_update_energy sigma t_test t_set event s)))
  /\ (forall f a b,
        In (Command k f a b) (snd (run cs (init ids consumed produced now))) ->
        f = 0 /\ a = 0 /\ b = 0)
  /\ (forall sigma t,
        In k (hypers s) -> electricLevel (sigma k) = None ->
        exists e, recompute sigma t s = (Raise e, set_next_update (t + five_minutes) s, [])).
Proof.
  intros Hcs s.
  destruct (run_keeps_unknown_out k cs (init ids consumed produced now) Hcs)
    as (Hc & Hd); [intros []|intros []|].
  fold s in Hc, Hd. split; [assumption|split; [assumption|split; [|split]]].
  - intros sigma t t' ev Hk f a b Hin.
    exact (exec_commands_unknown k (PowerSignal sigma t t' ev) s Hk Hc Hd f a b Hin).
  - apply (run_commands_unknown k cs _ Hcs); intros [].
  - intros sigma t Hin Hk. apply (recompute_unknown sigma t s k Hin Hk).
Qed.

(** Two devices, the second still unknown: the first signal cannot rank,
    and the second device stays out of both lists. *)
Lemma unknown_device_never_ranked_witness :
  let sigma : heap := fun k =>
    if String.eqb k "h1"
    then mkHyper2000 (Some 50) (Some 10) (Some 100) (Some 1200) (Some 1200) (Some 0) (Some 0)
    else mkHyper2000 None None None None None None None in
  let event := mkEvent "consumed" (Some (Number (50 # 1))) in
  let s := fst (run [SetOperation 2; PowerSignal sigma 1000000 1000001 event]
                    (init ["h1"; "h2"]%string "consumed" "produced" 0)) in
  ~ In "h2"%string (_hypers_charge s) /\ ~ In "h2"%string (_hypers_discharge s).
Proof.
  intros sigma event s.
  assert (H : forall c, In c [SetOperation 2; PowerSignal sigma 1000000 1000001 event] ->
                        unknown_to "h2" c).
  { intros c [<-|[<-|[]]]; [exact I|reflexivity]. }
  destruct (unknown_device_never_ranked "h2" ["h1"; "h2"]%string "consumed" "produced" 0
              _ H) as (Hc & Hd & _).
  split; assumption.
Defined.

(** C3, as the claim states it, fails at a mode change: the stop command
    goes to every device of the catalog, the unknown one included.  In the
    same run the power signal does not rank the known device either, the
    ranking pass raises [TypeError]. *)
Lemma all_stop_reaches_unknown_device :
  let sigma : heap := fun k =>
    if String.eqb k "h1"
    then mkHyper2000 (Some 50) (Some 10) (Some 100) (Some 1200) (Some 1200) (Some 0) (Some 0)
    else mkHyper2000 None None None None None None None in
  let event := mkEvent "consumed" (Some (Number (50 # 1))) in
  let cs := [SetOperation 2; PowerSignal sigma 1000000 1000001 event; SetOperation 0] in
  all_known (sigma "h2"%string) = false
  /\ snd (run cs (init ["h1"; "h2"]%string "consumed" "produced" 0))
     = [Log (Error TypeError); Command "h1" 0 0 0; Command "h2" 0 0 0]
  /\ In (Command "h2" 0 0 0)
        (snd (run cs (init ["h1"; "h2"]%string "consumed" "produced" 0))).
Proof.
  cbv zeta. split; [reflexivity|]. split; [vm_compute; reflexivity|].
  vm_compute. right; right; left; reflexivity.
Qed.

(** ** Ranking a fleet whose state is known *)

Lemma StronglySorted_weaken {A} (R R' : A -> A -> Prop) (l : list A) :
  (forall a b, R a b -> R' a b) -> StronglySorted R l -> StronglySorted R' l.
Proof.
  intros HR. induction 1 as [|x t Hs IH Hall]; constructor; [assumption|].
  eapply Forall_impl; [|exact Hall]. intros b. apply HR.
Qed.

Lemma sum_known (sigma : heap) (attr : Hyper2000 -> state) (l : list string) :
  (forall h, In h l -> attr (sigma h) <> None) ->
  sum sigma attr l = Ok (total sigma attr l).
Proof.
  induction l as [|h t IH]; intros Hk; [reflexivity|].
  cbn [sum]. unfold total in *. cbn [map fold_right].
  destruct (attr (sigma h)) as [z|] eqn:E.
  - cbn. rewrite IH by (intros k Hin; apply Hk; right; assumption). reflexivity.
  - exfalso. apply (Hk h); [left; reflexivity|assumption].
Qed.

Lemma all_known_fields (d : Hyper2000) :
  all_known d = true ->
  electricLevel d <> None /\ minSoc d <> None /\ socSet d <> None
  /\ inputLimit d <> None /\ outputLimit d <> None.
Proof.
  unfold all_known. rewrite !andb_true_iff.
  destruct (electricLevel d), (minSoc d), (socSet d), (inputLimit d), (outputLimit d);
    cbn; intuition (congruence || discriminate).
Qed.

Lemma gt_float_exact (x y : Z) :
  Z.abs y <= 2 ^ 53 -> gt_float (Some x) (Some y) = Ok (y <? x).
Proof.
  intros Hy. unfold gt_float.
  destruct (PyNumFacts.float_of_int_exact y Hy) as (f & -> & Hf). cbn [rbind].
  rewrite (PyNumFacts.int_gt_float_represents x y f Hf). reflexivity.
Qed.

Lemma lt_float_exact (x y : Z) :
  Z.abs y <= 2 ^ 53 -> lt_float (Some x) (Some y) = Ok (x <? y).
Proof.
  intros Hy. unfold lt_float.
  destruct (PyNumFacts.float_of_int_exact y Hy) as (f & -> & Hf). cbn [rbind].
  rewrite (PyNumFacts.int_lt_float_represents x y f Hf). reflexivity.
Qed.

Lemma rank_discharge_known (sigma : heap) (ids : list string) :
  (forall h, In h ids -> rankable (sigma h)) ->
  exists d,
    rank_discharge sigma ids = Ok d
    /\ Permutation d (filter (fun h => value (minSoc (sigma h)) <? level sigma h) ids)
    /\ StronglySorted (fun a b => level sigma b <= level sigma a) d.
Proof.
  intros Hk. unfold rank_discharge.
  rewrite (filter_r_total _ (fun h => value (minSoc (sigma h)) <? level sigma h)).
  2:{ intros h Hin. destruct (Hk h Hin) as (Ha & Hm & _).
      destruct (all_known_fields _ Ha) as (He & Hmin & _). unfold level.
      destruct (electricLevel (sigma h)) as [x|]; [|congruence].
      destruct (minSoc (sigma h)) as [y|]; [|congruence].
      apply gt_float_exact. exact Hm. }
  cbn [rbind].
  destruct (sorted_known sigma electricLevel true
              (filter (fun h => value (minSoc (sigma h)) <? level sigma h) ids))
    as (d & Ed & Hp & Hs).
  { intros h Hin. apply filter_In in Hin. destruct Hin as (Hin & _).
    destruct (Hk h Hin) as (Ha & _). apply (all_known_fields _ Ha). }
  exists d. split; [assumption|split; [assumption|]].
  eapply StronglySorted_weaken; [|exact Hs].
  intros a b Hab. unfold level. cbv beta in Hab. rewrite Z.geb_leb, Z.leb_le in Hab. exact Hab.
Qed.

Lemma rank_charge_known (sigma : heap) (ids : list string) :
  (forall h, In h ids -> rankable (sigma h)) ->
  exists c,
    rank_charge sigma ids = Ok c
    /\ Permutation c (filter (fun h => level sigma h <? value (socSet (sigma h))) ids)
    /\ StronglySorted (fun a b => level sigma a <= level sigma b) c.
Proof.
  intros Hk. unfold rank_charge.
  rewrite (filter_r_total _ (fun h => level sigma h <? value (socSet (sigma h)))).
  2:{ intros h Hin. destruct (Hk h Hin) as (Ha & _ & Hm).
      destruct (all_known_fields _ Ha) as (He & _ & Hset & _). unfold level.
      destruct (electricLevel (sigma h)) as [x|]; [|congruence].
      destruct (socSet (sigma h)) as [y|]; [|congruence].
      apply lt_float_exact. exact Hm. }
  cbn [rbind].
  destruct (sorted_known sigma electricLevel false
              (filter (fun h => level sigma h <? value (socSet (sigma h))) ids))
    as (c & Ec & Hp & Hs).
  { intros h Hin. apply filter_In in Hin. destruct Hin as (Hin & _).
    destruct (Hk h Hin) as (Ha & _). apply (all_known_fields _ Ha). }
  exists c. split; [assumption|split; [assumption|]].
  eapply StronglySorted_weaken; [|exact Hs].
  intros a b Hab. unfold level. cbv beta in Hab. rewrite Z.leb_le in Hab. exact Hab.
Qed.

(** C4, as the code has it: for a catalog whose sensors all hold numbers,
    with discharge floors and charge targets of magnitude at most 2^53, the
    ranking pass returns normally; the charge list holds exactly the devices
    with [electricLevel < socSet], by ascending level; the discharge list
    exactly those with [electricLevel > minSoc], by descending level; the two
    limits are the sums of [inputLimit] over the charge list and of
    [outputLimit] over the discharge list; the deadline is five minutes
    after the clock reading.  The thresholds are compared as doubles, which
    are exact up to 2^53. *)
Theorem recompute_ranks_known_fleet (sigma : heap) (now : Z) (s : ZendureManager) :
  (forall h, In h (hypers s) -> rankable (sigma h)) ->
  exists s' w,
    recompute sigma now s = (Ok tt, s', w)
    /\ Permutation (_hypers_charge s')
         (filter (fun h => level sigma h <? value (socSet (sigma h))) (hypers s))
    /\ StronglySorted (fun a b => level sigma a <= level sigma b) (_hypers_charge s')
    /\ Permutation (_hypers_discharge s')
         (filter (fun h => value (minSoc (sigma h)) <? level sigma h) (hypers s))
    /\ StronglySorted (fun a b => level sigma b <= level sigma a) (_hypers_discharge s')
    /\ _max_charge s' = total sigma inputLimit (_hypers_charge s')
    /\ _max_discharge s' = total sigma outputLimit (_hypers_discharge s')
    /\ next_update s' = now + five_minutes.
Proof.
  intros Hk.
  destruct (rank_discharge_known sigma (hypers s) Hk) as (d & Ed & Hpd & Hsd).
  destruct (rank_charge_known sigma (hypers s) Hk) as (c & Ec & Hpc & Hsc).
  assert (Hmc : sum sigma inputLimit c = Ok (total sigma inputLimit c)).
  { apply sum_known. intros h Hin.
    apply (Permutation_in h Hpc), filter_In in Hin. destruct Hin as (Hin & _).
    destruct (Hk h Hin) as (Ha & _). apply (all_known_fields _ Ha). }
  assert (Hmd : sum sigma outputLimit d = Ok (total sigma outputLimit d)).
  { apply sum_known. intros h Hin.
    apply (Permutation_in h Hpd), filter_In in Hin. destruct Hin as (Hin & _).
    destruct (Hk h Hin) as (Ha & _). apply (all_known_fields _ Ha). }
  rewrite recompute_cases. cbv zeta. rewrite Ed, Ec, Hmc, Hmd.
  do 2 eexists. split; [reflexivity|]. cbn.
  repeat split; assumption.
Qed.

(** Three devices at 50, 80 and 20 percent; the second has reached its
    charge target, the third is at its discharge floor. *)
Lemma recompute_ranks_known_fleet_witness :
  let sigma : heap := fun k =>
    if String.eqb k "h1"
    then mkHyper2000 (Some 50) (Some 20) (Some 100) (Some 1200) (Some 800) (Some 0) (Some 0)
    else if String.eqb k "h2"
    then mkHyper2000 (Some 80) (Some 20) (Some 80) (Some 1000) (Some 600) (Some 0) (Some 0)
    else mkHyper2000 (Some 20) (Some 20) (Some 100) (Some 900) (Some 500) (Some 0) (Some 0) in
  let s := set_operation 2 (init ["h1"; "h2"; "h3"]%string "consumed" "produced" 0) in
  exists s' w,
    recompute sigma 1000000 s = (Ok tt, s', w)
    /\ _hypers_charge s' = ["h3"; "h1"]%string
    /\ _hypers_discharge s' = ["h2"; "h1"]%string
    /\ _max_charge s' = 2100 /\ _max_discharge s' = 1400.
Proof.
  intros sigma s.
  assert (Hk : forall h, In h (hypers s) -> rankable (sigma h)).
  { intros h [<-|[<-|[<-|[]]]]; (split; [reflexivity|split; vm_compute; discriminate]). }
  destruct (recompute_ranks_known_fleet sigma 1000000 s Hk)
    as (s' & w & E & _).
  exists s', w. split; [exact E|].
  vm_compute in E. inversion E; subst.
  repeat split; reflexivity.
Defined.

(** C4, as the claim states it, fails for a threshold that is no double: a
    device at level 2^53 with charge target 2^53 + 1 is below its target and
    yet not ranked for charging, the target being rounded to 2^53. *)
Lemma ranking_rounds_thresholds :
  let sigma : heap := fun _ =>
    mkHyper2000 (Some (2 ^ 53)) (Some 10) (Some (2 ^ 53 + 1))
      (Some 1200) (Some 800) (Some 0) (Some 0) in
  let s := set_operation 2 (init ["h1"]%string "consumed" "produced" 0) in
  all_known (sigma "h1"%string) = true
  /\ level sigma "h1" < value (socSet (sigma "h1"%string))
  /\ fst (fst (recompute sigma 1000000 s)) = Ok tt
  /\ _hypers_charge (snd (fst (recompute sigma 1000000 s))) = [].
Proof.
  cbv zeta. split; [reflexivity|]. split; [vm_compute; reflexivity|].
  split; vm_compute; reflexivity.
Qed.

(** ** Inbound messages that are discarded *)

Section Discarded.

Variable handle_message : Hyper2000 -> string -> json -> result unit * Hyper2000.

Lemma on_message_unparseable (msg : Message) (w : ZendureManager * heap) :
  payload msg = None ->
  on_message handle_message msg w = (Ok tt, w, [Log (Error ValueError)]).
Proof.
  intros E. unfold on_message, try_except, json_loads. rewrite E, bind_lift_raise.
  reflexivity.
Qed.

Lemma on_message_no_device (msg : Message) (j : json) (w : ZendureManager * heap) :
  payload msg = Some j -> names_no_device (fst w) j ->
  exists log, on_message handle_message msg w = (Ok tt, w, log) /\ quiet log
    /\ (forall fields, j = JObject fields ->
          match assoc "deviceId" fields with
          | Some (JArray (_ :: _)) | Some (JObject (_ :: _)) => False
          | _ => True
          end -> log = []).
Proof.
  intros E Hj. unfold on_message, try_except, json_loads. rewrite E, bind_lift_ok.
  destruct j as [|b|q|str|l|fields];
    try (cbn [payload_get]; rewrite bind_lift_raise; eexists; split; [reflexivity|];
         split; [apply quiet_log, quiet_nil|discriminate]).
  cbn [payload_get names_no_device] in *. rewrite bind_lift_ok.
  destruct (assoc "deviceId" fields) as [v|] eqn:Ev.
  2:{ cbn. eexists; split; [reflexivity|]. split; [apply quiet_nil|reflexivity]. }
  destruct (json_truthy v) eqn:Etruthy.
  2:{ cbn [negb]. eexists; split; [reflexivity|]. split; [apply quiet_nil|reflexivity]. }
  cbn [negb]. rewrite bind_get.
  destruct v as [|b|q|k|l|l]; cbn [hypers_get].
  - discriminate.
  - rewrite bind_lift_ok. eexists; split; [reflexivity|].
    split; [apply quiet_nil|reflexivity].
  - rewrite bind_lift_ok. eexists; split; [reflexivity|].
    split; [apply quiet_nil|reflexivity].
  - rewrite bind_lift_ok.
    match goal with |- context [existsb ?f ?l] => destruct (existsb f l) eqn:Hex end.
    + apply existsb_exists in Hex. destruct Hex as (k' & Hin & Hk').
      apply String.eqb_eq in Hk'. subst. contradiction.
    + eexists; split; [reflexivity|].
      split; [apply quiet_nil|reflexivity].
  - rewrite bind_lift_raise. eexists; split; [reflexivity|].
    split; [apply quiet_log, quiet_nil|].
    intros fields0 E0. inversion E0; subst. rewrite Ev.
    destruct l; [discriminate|contradiction].
  - rewrite bind_lift_raise. eexists; split; [reflexivity|].
    split; [apply quiet_log, quiet_nil|].
    intros fields0 E0. inversion E0; subst. rewrite Ev.
    destruct l; [discriminate|contradiction].
Qed.

(** C8, as the code has it: a message whose payload cannot be parsed, has
    no ["deviceId"] entry or names no device of the catalog leaves the
    manager and every device as they are, sends no command and lets no
    exception out.  A payload that cannot be parsed is reported in the
    error log; a JSON object without ["deviceId"], or with the id of an
    unknown device, leaves no trace at all. *)
Theorem malformed_message_discarded (msg : Message) (s : ZendureManager) (sigma : heap) :
  (payload msg = None ->
     on_message handle_message msg (s, sigma)
     = (Ok tt, (s, sigma), [Log (Error ValueError)]))
  /\ (forall j, payload msg = Some j -> names_no_device s j ->
        exists log,
          on_message handle_message msg (s, sigma) = (Ok tt, (s, sigma), log)
          /\ quiet log)
  /\ (forall fields, payload msg = Some (JObject fields) ->
        assoc "deviceId" fields = None ->
        on_message handle_message msg (s, sigma) = (Ok tt, (s, sigma), []))
  /\ (forall fields k, payload msg = Some (JObject fields) ->
        assoc "deviceId" fields = Some (JString k) -> ~ In k (hypers s) ->
        on_message handle_message msg (s, sigma) = (Ok tt, (s, sigma), [])).
Proof.
  split; [apply on_message_unparseable|]. split; [|split].
  - intros j E Hj.
    destruct (on_message_no_device msg j (s, sigma) E Hj) as (log & Elog & Hq & _).
    exists log. split; assumption.
  - intros fields E Hnone.
    destruct (on_message_no_device msg (JObject fields) (s, sigma) E) as (log & Elog & _ & Hs).
    { cbn. rewrite Hnone. exact I. }
    rewrite Elog, (Hs fields eq_refl); [reflexivity|]. rewrite Hnone. exact I.
  - intros fields k E Hsome Hk.
    destruct (on_message_no_device msg (JObject fields) (s, sigma) E) as (log & Elog & _ & Hs).
    { cbn. rewrite Hsome. exact Hk. }
    rewrite Elog, (Hs fields eq_refl); [reflexivity|]. rewrite Hsome. exact I.
Qed.

End Discarded.

(** A report of a device that is not in the catalog. *)
Lemma malformed_message_discarded_witness :
  let handle : Hyper2000 -> string -> json -> result unit * Hyper2000 :=
    fun d _ _ => (Ok tt, d) in
  let sigma : heap := fun _ => mkHyper2000 None None None None None None None in
  let s := init ["h1"]%string "consumed" "produced" 0 in
  let msg := mkMessage "/73bkTV/h9/properties/report"
               (Some (JObject [("deviceId", JString "h9");
                               ("electricLevel", JNumber (55 # 1))]%string)) in
  on_message handle msg (s, sigma) = (Ok tt, (s, sigma), []).
Proof.
  intros handle sigma s msg.
  destruct (malformed_message_discarded handle msg s sigma) as (_ & _ & _ & H).
  apply (H _ "h9"%string eq_refl eq_refl).
  intros [E|[]]. discriminate.
Defined.

(** C8, as the claim states it, fails for a payload that is no JSON: it is
    discarded, but not silently, the handler writes it to the error log. *)
Lemma unparseable_message_is_logged :
  let handle : Hyper2000 -> string -> json -> result unit * Hyper2000 :=
    fun d _ _ => (Ok tt, d) in
  let sigma : heap := fun _ => mkHyper2000 None None None None None None None in
  let s := init ["h1"]%string "consumed" "produced" 0 in
  snd (on_message handle (mkMessage "/73bkTV/h1/properties/report" None) (s, sigma))
  = [Log (Error ValueError)]
  /\ snd (on_message handle (mkMessage "/73bkTV/h1/properties/report" None) (s, sigma))
     <> [].
Proof. cbv zeta. split; [reflexivity|discriminate]. Qed.


(** * Further properties of the code *)

(** ** Power signals outside smart matching *)

Lemma update_energy_idle (sigma : heap) (t_test t_set : Z) (event : Event)
  (s : ZendureManager) :
  operation s <> 2 ->
  _update_energy sigma t_test t_set event s = (Ok tt, s, []).
Proof.
  intros Hop. rewrite handler_outcome, idle_body by assumption. reflexivity.
Qed.

(** X1: as long as the mode is not smart matching, power signals do nothing
    at all, whatever they carry (an unavailable meter included) and however
    many there are: the manager stays as it is, nothing is logged, nothing is
    sent and nothing is raised. *)
Theorem signals_outside_smart_matching_do_nothing (cs : list call) (s : ZendureManager) :
  operation s <> 2 ->
  forallb is_power_signal cs = true ->
  run cs s = (s, [])
  /\ forall c, In c cs -> exec c s = (Ok tt, s, []).
Proof.
  intros Hop Hcs.
  assert (Hone : forall c, In c cs -> exec c s = (Ok tt, s, [])).
  { intros c Hin. rewrite forallb_forall in Hcs. specialize (Hcs c Hin).
    destruct c as [sigma t t' ev|o]; [|discriminate].
    apply update_energy_idle. assumption. }
  split; [|assumption].
  induction cs as [|c t IH]; [reflexivity|].
  cbn [run]. rewrite (Hone c (or_introl eq_refl)).
  cbn [forallb] in Hcs. apply andb_true_iff in Hcs. destruct Hcs as (_ & Ht).
  rewrite (IH Ht (fun c' H => Hone c' (or_intror H))). reflexivity.
Qed.

Lemma signals_outside_smart_matching_do_nothing_witness :
  let sigma : heap := fun _ => mkHyper2000 None None None None None None None in
  let s := init ["h1"]%string "consumed" "produced" 0 in
  run [PowerSignal sigma 1000000 1000001 (mkEvent "consumed" (Some NotNumeric));
       PowerSignal sigma 2000000 2000001 (mkEvent "produced" None)] s
  = (s, []).
Proof.
  intros sigma s.
  apply (signals_outside_smart_matching_do_nothing _ s); [discriminate|reflexivity].
Defined.

(** ** Readings below one watt *)

Lemma quot_small_reading (q : Q) :
  (-1 < q)%Q -> (q < 1)%Q -> Z.quot (Qnum q) (Zpos (Qden q)) = 0.
Proof.
  unfold Qlt. cbn [Qnum Qden]. intros Hlo Hhi.
  destruct (Z.le_gt_cases 0 (Qnum q)) as [Hq|Hq].
  - apply Z.quot_small. lia.
  - rewrite <- (Z.opp_involutive (Qnum q)), Z.quot_opp_l by lia.
    rewrite Z.quot_small by lia. reflexivity.
Qed.

(** X2: the reading is cut to an integer before anything else, so in smart
    matching with a fresh ranking a reading strictly between -1 and 1 is a
    zero signal: nothing is sent, nothing is logged, the manager stays as it
    is. *)
Theorem reading_below_one_watt_is_ignored (sigma : heap) (t_test t_set : Z)
  (event : Event) (s : ZendureManager) (q : Q) :
  operation s = 2 -> stale t_test s = false ->
  new_state event = Some (Number q) -> (-1 < q)%Q -> (q < 1)%Q ->
  _update_energy sigma t_test t_set event s = (Ok tt, s, []).
Proof.
  intros Hop Hst Hev Hlo Hhi.
  rewrite handler_outcome, smart_matching_body, Hst by assumption.
  rewrite (bind_ret tt (fun _ => rebalance sigma event) s).
  unfold rebalance, int_float_state. rewrite Hev, bind_lift_ok.
  rewrite (quot_small_reading q Hlo Hhi). reflexivity.
Qed.

Lemma reading_below_one_watt_is_ignored_witness :
  let sigma : heap := fun _ => mkHyper2000 (Some 80) (Some 10) (Some 100)
                                 (Some 1200) (Some 1200) (Some 0) (Some 300) in
  let s := mkManager ["h1"]%string "consumed" "produced" 300000000 2
             ["h1"]%string ["h1"]%string 1200 1200 in
  _update_energy sigma 1000000 1000001
    (mkEvent "consumed" (Some (Number (-9 # 10)))) s = (Ok tt, s, []).
Proof.
  intros sigma s.
  apply (reading_below_one_watt_is_ignored sigma 1000000 1000001 _ s (-9 # 10));
    reflexivity.
Defined.

(** ** A fleet at rest *)

(** X3: when the ranked devices report neither output nor input, the meter
    alone decides the direction and the reading is the whole target: a signal
    of the produced meter calls the charge allocation with [p], a signal of
    any other entity the discharge allocation with [p], whatever the sign of
    [p]. *)
Theorem fleet_at_rest_follows_the_meter (sigma : heap) (event : Event)
  (s : ZendureManager) (p d c : Z) :
  int_float_state event = Ok p -> p <> 0 ->
  sum sigma outputHomePower (_hypers_discharge s) = Ok d -> d <= 0 ->
  sum sigma gridInputPower (_hypers_charge s) = Ok c -> c <= 0 ->
  (entity_id event = produced s ->
     rebalance sigma event s
     = (_LOGGER_info (InfoUpdateEnergy p) ;; upd_charging p) s)
  /\ (entity_id event <> produced s ->
     rebalance sigma event s
     = (_LOGGER_info (InfoUpdateEnergy p) ;; upd_discharging p) s).
Proof.
  intros Hp Hnz Hd Hdn Hc Hcn.
  assert (E : rebalance sigma event s
              = (_LOGGER_info (InfoUpdateEnergy p) ;;
                 if String.eqb (entity_id event) (produced s)
                 then upd_charging p else upd_discharging p) s).
  { unfold rebalance. rewrite Hp, bind_lift_ok.
    replace (p =? 0) with false by (symmetry; apply Z.eqb_neq; assumption).
    unfold _LOGGER_info. rewrite !bind_emit, bind_get, Hd, bind_lift_ok.
    replace (0 <? d) with false by (symmetry; apply Z.ltb_ge; assumption).
    rewrite Hc, bind_lift_ok.
    replace (0 <? c) with false by (symmetry; apply Z.ltb_ge; assumption).
    reflexivity. }
  rewrite E. split.
  - intros ->. rewrite String.eqb_refl. reflexivity.
  - intros Hne. apply String.eqb_neq in Hne. rewrite Hne. reflexivity.
Qed.

Lemma fleet_at_rest_follows_the_meter_witness :
  let sigma : heap := fun _ => mkHyper2000 (Some 80) (Some 10) (Some 100)
                                 (Some 1200) (Some 1200) (Some 0) (Some 0) in
  let s := mkManager ["h1"]%string "consumed" "produced" 300000000 2
             ["h1"]%string ["h1"]%string 1200 1200 in
  rebalance sigma (mkEvent "produced" (Some (Number (250 # 1)))) s
  = (Ok tt, s, [Log (InfoUpdateEnergy 250); Log (InfoCharging 250);
                Command "h1" 1 250 0])
  /\ rebalance sigma (mkEvent "consumed" (Some (Number (-250 # 1)))) s
  = (Ok tt, s, [Log (InfoUpdateEnergy (-250)); Log (InfoDischarging (-250));
                Command "h1" 0 0 (-250)]).
Proof.
  intros sigma s.
  assert (Hd : sum sigma outputHomePower (_hypers_discharge s) = Ok 0) by reflexivity.
  assert (Hc : sum sigma gridInputPower (_hypers_charge s) = Ok 0) by reflexivity.
  split.
  - etransitivity; [|reflexivity].
    refine (proj1 (fleet_at_rest_follows_the_meter sigma
                     (mkEvent "produced" (Some (Number (250 # 1)))) s 250 0 0
                     eq_refl _ Hd _ Hc _) eq_refl); lia.
  - etransitivity; [|reflexivity].
    refine (proj2 (fleet_at_rest_follows_the_meter sigma
                     (mkEvent "consumed" (Some (Number (-250 # 1)))) s (-250) 0 0
                     eq_refl _ Hd _ Hc _) _); try lia.
    discriminate.
Defined.

(** ** What a power signal leaves alone *)

Lemma recompute_frame (sigma : heap) (now : Z) (s : ZendureManager) :
  let s' := snd (fst (recompute sigma now s)) in
  hypers s' = hypers s /\ consumed s' = consumed s /\ produced s' = produced s
  /\ operation s' = operation s.
Proof.
  rewrite recompute_cases. cbv zeta.
  destruct (rank_discharge sigma (hypers s)); [|repeat split].
  destruct (rank_charge sigma (hypers s)) as [c|]; [|repeat split].
  destruct (sum sigma inputLimit c); [|repeat split].
  destruct (sum sigma outputLimit _); repeat split.
Qed.

(** X4: whatever a power signal carries and whatever the devices report, it
    leaves the catalog, the two meter ids and the mode as they are, it
    commands only devices of the two ranked lists it ends with, and it either
    returns or raises [NameError]: no other exception leaves it. *)
Theorem power_signal_frame (sigma : heap) (t_test t_set : Z) (event : Event)
  (s : ZendureManager) :
  let out := _update_energy sigma t_test t_set event s in
  let s' := snd (fst out) in
  hypers s' = hypers s /\ consumed s' = consumed s /\ produced s' = produced s
  /\ operation s' = operation s
  /\ sends_only_to (_hypers_charge s' ++ _hypers_discharge s') (snd out)
  /\ (fst (fst out) = Ok tt \/ fst (fst out) = Raise NameError).
Proof.
  cbv zeta.
  destruct (update_energy_outcome sigma t_test t_set event s)
    as (r & s' & w & E & Hsend & _ & Hkeep & Hrec).
  assert (Hres : fst (fst (_update_energy sigma t_test t_set event s)) = Ok tt
                 \/ fst (fst (_update_energy sigma t_test t_set event s)) = Raise NameError).
  { rewrite handler_outcome.
    destruct (_update_energy_body sigma t_test t_set event s) as [[[[]|e] s1] w1];
      [left|right]; reflexivity. }
  rewrite E in *. cbn [fst snd] in *.
  destruct (recomputes t_test s).
  - destruct (Hrec eq_refl) as (r1 & w1 & E1).
    pose proof (recompute_frame sigma t_set s) as Hf. rewrite E1 in Hf.
    cbn [fst snd] in Hf. destruct Hf as (H1 & H2 & H3 & H4).
    repeat split; assumption.
  - rewrite (Hkeep eq_refl) in *. repeat split; assumption.
Qed.

(** ** A ranking that fails half way *)

Lemma rank_discharge_levels_known (sigma : heap) (ids : list string) :
  (forall h, In h ids ->
     electricLevel (sigma h) <> None /\ minSoc (sigma h) <> None
     /\ Z.abs (value (minSoc (sigma h))) <= 2 ^ 53) ->
  exists d,
    rank_discharge sigma ids = Ok d
    /\ Permutation d (filter (fun h => value (minSoc (sigma h)) <? level sigma h) ids).
Proof.
  intros Hk. unfold rank_discharge.
  rewrite (filter_r_total _ (fun h => value (minSoc (sigma h)) <? level sigma h)).
  2:{ intros h Hin. destruct (Hk h Hin) as (He & Hmin & Hm). unfold level.
      destruct (electricLevel (sigma h)) as [x|]; [|congruence].
      destruct (minSoc (sigma h)) as [y|]; [|congruence].
      apply gt_float_exact. exact Hm. }
  cbn [rbind].
  destruct (sorted_known sigma electricLevel true
              (filter (fun h => value (minSoc (sigma h)) <? level sigma h) ids))
    as (d & Ed & Hp & _).
  { intros h Hin. apply filter_In in Hin. destruct Hin as (Hin & _).
    apply (Hk h Hin). }
  exists d. split; assumption.
Qed.

Lemma lt_float_unknown_target (x : state) : lt_float x None = Raise TypeError.
Proof. reflexivity. Qed.

(** X5: the ranking pass is not atomic.  When every device reports its level
    and its discharge floor but one device has no charge target yet, the pass
    raises after it has replaced the discharge list: the discharge list is
    the new ranking and the deadline is reset, while the charge list and both
    limits are the old ones. *)
Theorem ranking_fails_half_way (sigma : heap) (now : Z) (s : ZendureManager) (k : string) :
  (forall h, In h (hypers s) ->
     electricLevel (sigma h) <> None /\ minSoc (sigma h) <> None
     /\ Z.abs (value (minSoc (sigma h))) <= 2 ^ 53) ->
  In k (hypers s) -> socSet (sigma k) = None ->
  exists e s',
    recompute sigma now s = (Raise e, s', [])
    /\ Permutation (_hypers_discharge s')
         (filter (fun h => value (minSoc (sigma h)) <? level sigma h) (hypers s))
    /\ _hypers_charge s' = _hypers_charge s
    /\ _max_charge s' = _max_charge s
    /\ _max_discharge s' = _max_discharge s
    /\ next_update s' = now + five_minutes.
Proof.
  intros Hk Hin Hset.
  destruct (rank_discharge_levels_known sigma (hypers s) Hk) as (d & Ed & Hp).
  assert (Hc : exists e, rank_charge sigma (hypers s) = Raise e).
  { unfold rank_charge.
    destruct (filter_r_raises
                (fun h => lt_float (electricLevel (sigma h)) (socSet (sigma h)))
                (hypers s) k Hin) as (e & ->).
    - rewrite Hset. eexists. apply lt_float_unknown_target.
    - eexists; reflexivity. }
  destruct Hc as (e & Ec).
  rewrite recompute_cases. cbv zeta. rewrite Ed, Ec.
  do 2 eexists. split; [reflexivity|]. cbn. repeat split. assumption.
Qed.

Lemma ranking_fails_half_way_witness :
  let sigma : heap := fun k =>
    if String.eqb k "h1"
    then mkHyper2000 (Some 50) (Some 10) (Some 100) (Some 1200) (Some 800) (Some 0) (Some 0)
    else mkHyper2000 (Some 70) (Some 10) None None None None None in
  let s := mkManager ["h1"; "h2"]%string "consumed" "produced" 300000000 2
             ["h1"]%string ["h1"]%string 1200 800 in
  exists e s',
    recompute sigma 400000000 s = (Raise e, s', [])
    /\ _hypers_discharge s' = ["h2"; "h1"]%string
    /\ _hypers_charge s' = ["h1"]%string
    /\ _max_discharge s' = 800.
Proof.
  intros sigma s.
  destruct (ranking_fails_half_way sigma 400000000 s "h2") as (e & s' & E & _).
  - intros h [<-|[<-|[]]]; (split; [discriminate|split; [discriminate|]]);
      vm_compute; discriminate.
  - right; left; reflexivity.
  - reflexivity.
  - exists e, s'. split; [exact E|].
    vm_compute in E. inversion E; subst. repeat split; reflexivity.
Defined.

(** ** Where ranked devices come from *)

Lemma filter_r_NoDup {A} (p : A -> result bool) (l l' : list A) :
  filter_r p l = Ok l' -> NoDup l -> NoDup l'.
Proof.
  revert l'. induction l as [|x t IH]; cbn [filter_r]; intros l' E Hnd.
  - inversion E; constructor.
  - destruct (p x) as [b|]; [|discriminate]. cbn [rbind] in E.
    destruct (filter_r p t) as [t'|] eqn:Et; [|discriminate]. cbn [rbind] in E.
    inversion E; subst; clear E. inversion Hnd as [|? ? Hx Ht]; subst.
    destruct b; [|apply IH; [reflexivity|assumption]].
    constructor; [|apply IH; [reflexivity|assumption]].
    intros Hin. apply Hx. exact (proj1 (filter_r_in p t t' Et x Hin)).
Qed.

Lemma filter_r_length {A} (p : A -> result bool) (l l' : list A) :
  filter_r p l = Ok l' -> (List.length l' <= List.length l)%nat.
Proof.
  revert l'. induction l as [|x t IH]; cbn [filter_r]; intros l' E.
  - inversion E; constructor.
  - destruct (p x) as [b|]; [|discriminate]. cbn [rbind] in E.
    destruct (filter_r p t) as [t'|] eqn:Et; [|discriminate]. cbn [rbind] in E.
    inversion E; subst; clear E. specialize (IH t' eq_refl).
    destruct b; cbn [List.length]; lia.
Qed.

Lemma rank_discharge_shape (sigma : heap) (ids d : list string) :
  rank_discharge sigma ids = Ok d ->
  (NoDup ids -> NoDup d) /\ (List.length d <= List.length ids)%nat.
Proof.
  unfold rank_discharge. intros E.
  destruct (filter_r _ ids) as [l|] eqn:El; [|discriminate]. cbn [rbind] in E.
  apply sorted_perm in E. split.
  - intros Hnd. apply (Permutation_NoDup (Permutation_sym E)).
    exact (filter_r_NoDup _ _ _ El Hnd).
  - rewrite (Permutation_length E). exact (filter_r_length _ _ _ El).
Qed.

Lemma rank_charge_shape (sigma : heap) (ids c : list string) :
  rank_charge sigma ids = Ok c ->
  (NoDup ids -> NoDup c) /\ (List.length c <= List.length ids)%nat.
Proof.
  unfold rank_charge. intros E.
  destruct (filter_r _ ids) as [l|] eqn:El; [|discriminate]. cbn [rbind] in E.
  apply sorted_perm in E. split.
  - intros Hnd. apply (Permutation_NoDup (Permutation_sym E)).
    exact (filter_r_NoDup _ _ _ El Hnd).
  - rewrite (Permutation_length E). exact (filter_r_length _ _ _ El).
Qed.

Lemma recompute_returns (sigma : heap) (now : Z) (s s' : ZendureManager) (w : list effect) :
  recompute sigma now s = (Ok tt, s', w) ->
  rank_discharge sigma (hypers s) = Ok (_hypers_discharge s')
  /\ rank_charge sigma (hypers s) = Ok (_hypers_charge s')
  /\ sum sigma inputLimit (_hypers_charge s') = Ok (_max_charge s')
  /\ sum sigma outputLimit (_hypers_discharge s') = Ok (_max_discharge s').
Proof.
  rewrite recompute_cases. cbv zeta.
  destruct (rank_discharge sigma (hypers s)) as [d|]; [|discriminate].
  destruct (rank_charge sigma (hypers s)) as [c|]; [|discriminate].
  destruct (sum sigma inputLimit c) as [mc|] eqn:Emc; [|discriminate].
  destruct (sum sigma outputLimit d) as [md|] eqn:Emd; [|discriminate].
  intros E. inversion E; subst. cbn. repeat split; assumption.
Qed.

(** X6: whenever the ranking pass returns, both lists hold only devices of
    the catalog whose level is known, no device twice (the ids of the
    catalog being distinct), so neither list is longer than the catalog; a
    device may be in both. *)
Theorem ranked_lists_come_from_the_catalog (sigma : heap) (now : Z)
  (s s' : ZendureManager) (w : list effect) :
  recompute sigma now s = (Ok tt, s', w) ->
  (forall k, In k (_hypers_charge s') \/ In k (_hypers_discharge s') ->
     In k (hypers s) /\ electricLevel (sigma k) <> None)
  /\ (NoDup (hypers s) -> NoDup (_hypers_charge s') /\ NoDup (_hypers_discharge s'))
  /\ (List.length (_hypers_charge s') <= List.length (hypers s))%nat
  /\ (List.length (_hypers_discharge s') <= List.length (hypers s))%nat.
Proof.
  intros E. destruct (recompute_returns sigma now s s' w E) as (Ed & Ec & _).
  destruct (rank_discharge_shape sigma _ _ Ed) as (Hnd & Hld).
  destruct (rank_charge_shape sigma _ _ Ec) as (Hnc & Hlc).
  split; [|split; [|split]].
  - intros k [Hin|Hin].
    + exact (rank_charge_in sigma _ _ Ec k Hin).
    + exact (rank_discharge_in sigma _ _ Ed k Hin).
  - intros H. split; auto.
  - assumption.
  - assumption.
Qed.

Lemma ranked_lists_come_from_the_catalog_witness :
  let sigma : heap := fun _ => mkHyper2000 (Some 50) (Some 10) (Some 100)
                                 (Some 1200) (Some 800) (Some 0) (Some 0) in
  let s := set_operation 2 (init ["h1"; "h2"]%string "consumed" "produced" 0) in
  let s' := snd (fst (recompute sigma 1000000 s)) in
  NoDup (_hypers_charge s') /\ NoDup (_hypers_discharge s').
Proof.
  intros sigma s s'.
  assert (E : recompute sigma 1000000 s
              = (Ok tt, s', [Log (InfoValidCharging 2 2400);
                             Log (InfoValidDischarging 2 1600)])) by reflexivity.
  apply (proj1 (proj2 (ranked_lists_come_from_the_catalog sigma 1000000 s s' _ E))).
  repeat constructor; cbn; intuition discriminate.
Defined.

(** ** Devices of equal level *)

Lemma filter_keyed {A} (f : A -> Z) (z : Z) (ps : list (Z * A)) :
  Forall (fun p => fst p = f (snd p)) ps ->
  map snd (filter (fun p => fst p =? z) ps) = filter (fun h => f h =? z) (map snd ps).
Proof.
  induction 1 as [|p t Hp Ht IH]; [reflexivity|].
  cbn [filter map]. rewrite <- Hp. destruct (fst p =? z); cbn [map]; rewrite IH; reflexivity.
Qed.

Lemma sorted_stable (sigma : heap) (key : Hyper2000 -> state) (reverse : bool)
  (l l' : list string) (z : Z) :
  (forall h, In h l -> key (sigma h) <> None) ->
  sorted sigma key reverse l = Ok l' ->
  filter (fun h => value (key (sigma h)) =? z) l'
  = filter (fun h => value (key (sigma h)) =? z) l.
Proof.
  intros Hk E.
  destruct l as [|h [|h' t]]; [inversion E; reflexivity|inversion E; reflexivity|].
  unfold sorted in E. rewrite (map_r_known sigma key _ Hk) in E. cbn [rbind] in E.
  inversion E; subst; clear E.
  set (f := fun h => value (key (sigma h))).
  set (before := if reverse then Z.geb else Z.leb).
  set (ps := combine (map f (h :: h' :: t)) (h :: h' :: t)).
  assert (Hrefl : forall x, before x x = true).
  { intros x. unfold before. destruct reverse; [rewrite Z.geb_leb|]; apply Z.leb_refl. }
  assert (Hkeyed : Forall (fun p => fst p = f (snd p)) ps) by apply combine_map_keyed.
  change (filter (fun h => f h =? z) (map snd (isort before ps))
          = filter (fun h => f h =? z) (h :: h' :: t)).
  rewrite <- (filter_keyed f z (isort before ps)).
  2:{ exact (Permutation_Forall (Permutation_sym (isort_perm before ps)) Hkeyed). }
  rewrite (isort_stable before Hrefl ps z), (filter_keyed f z ps Hkeyed).
  unfold ps. rewrite combine_map_snd. reflexivity.
Qed.

(** X7: ties are broken by catalog order.  In a fleet whose state is known,
    the devices of any one level appear in the charge list, and in the
    discharge list, in the order they have in the catalog. *)
Theorem equal_levels_keep_catalog_order (sigma : heap) (ids c d : list string) (z : Z) :
  (forall h, In h ids -> rankable (sigma h)) ->
  rank_charge sigma ids = Ok c -> rank_discharge sigma ids = Ok d ->
  filter (fun h => level sigma h =? z) c
  = filter (fun h => level sigma h =? z)
      (filter (fun h => level sigma h <? value (socSet (sigma h))) ids)
  /\ filter (fun h => level sigma h =? z) d
     = filter (fun h => level sigma h =? z)
         (filter (fun h => value (minSoc (sigma h)) <? level sigma h) ids).
Proof.
  intros Hk Ec Ed. split.
  - unfold rank_charge in Ec.
    rewrite (filter_r_total _ (fun h => level sigma h <? value (socSet (sigma h)))) in Ec.
    2:{ intros h Hin. destruct (Hk h Hin) as (Ha & _ & Hm).
        destruct (all_known_fields _ Ha) as (He & _ & Hset & _). unfold level.
        destruct (electricLevel (sigma h)) as [x|]; [|congruence].
        destruct (socSet (sigma h)) as [y|]; [|congruence].
        apply lt_float_exact. exact Hm. }
    cbn [rbind] in Ec. unfold level.
    apply (sorted_stable sigma electricLevel false _ c z); [|exact Ec].
    intros h Hin. apply filter_In in Hin. destruct Hin as (Hin & _).
    destruct (Hk h Hin) as (Ha & _). apply (all_known_fields _ Ha).
  - unfold rank_discharge in Ed.
    rewrite (filter_r_total _ (fun h => value (minSoc (sigma h)) <? level sigma h)) in Ed.
    2:{ intros h Hin. destruct (Hk h Hin) as (Ha & Hm & _).
        destruct (all_known_fields _ Ha) as (He & Hmin & _). unfold level.
        destruct (electricLevel (sigma h)) as [x|]; [|congruence].
        destruct (minSoc (sigma h)) as [y|]; [|congruence].
        apply gt_float_exact. exact Hm. }
    cbn [rbind] in Ed. unfold level.
    apply (sorted_stable sigma electricLevel true _ d z); [|exact Ed].
    intros h Hin. apply filter_In in Hin. destruct Hin as (Hin & _).
    destruct (Hk h Hin) as (Ha & _). apply (all_known_fields _ Ha).
Qed.

(** Three devices, the first and the third at 50 percent, the second at 30:
    among the two at 50 the first one of the catalog comes first, in both
    lists. *)
Lemma equal_levels_keep_catalog_order_witness :
  let sigma : heap := fun k =>
    if String.eqb k "h2"
    then mkHyper2000 (Some 30) (Some 10) (Some 100) (Some 1200) (Some 800) (Some 0) (Some 0)
    else mkHyper2000 (Some 50) (Some 10) (Some 100) (Some 1200) (Some 800) (Some 0) (Some 0) in
  let ids := ["h1"; "h2"; "h3"]%string in
  rank_charge sigma ids = Ok ["h2"; "h1"; "h3"]%string
  /\ rank_discharge sigma ids = Ok ["h1"; "h3"; "h2"]%string
  /\ filter (fun h => level sigma h =? 50) ["h2"; "h1"; "h3"]%string
     = filter (fun h => level sigma h =? 50)
         (filter (fun h => level sigma h <? value (socSet (sigma h))) ids).
Proof.
  intros sigma ids.
  assert (Hk : forall h, In h ids -> rankable (sigma h)).
  { intros h [<-|[<-|[<-|[]]]]; (split; [reflexivity|split; vm_compute; discriminate]). }
  assert (Ec : rank_charge sigma ids = Ok ["h2"; "h1"; "h3"]%string) by reflexivity.
  assert (Ed : rank_discharge sigma ids = Ok ["h1"; "h3"; "h2"]%string) by reflexivity.
  split; [exact Ec|split; [exact Ed|]].
  exact (proj1 (equal_levels_keep_catalog_order sigma ids _ _ 50 Hk Ec Ed)).
Defined.

(** ** What an allocation sends *)

Lemma targets_map (a b c : Z) (l : list string) :
  targets (map (fun h => Command h a b c) l) = l.
Proof. induction l as [|h t IH]; [reflexivity|]. cbn. rewrite IH. reflexivity. Qed.





(** X9: an allocation is all or nothing and follows the ranking.  If it
    returns, it has sent exactly one command to every candidate, in rank
    order, and none to any other device; if it raises, it has sent no command
    at all.  In both cases the manager is left as it was. *)
Theorem commands_follow_the_ranking (s : ZendureManager) (total : Z) :
  (let out := upd_charging total s in
   snd (fst out) = s
   /\ (fst (fst out) = Ok tt -> targets (snd out) = _hypers_charge s)
   /\ (fst (fst out) <> Ok tt -> targets (snd out) = []))
  /\ (let out := upd_discharging total s in
      snd (fst out) = s
      /\ (fst (fst out) = Ok tt -> targets (snd out) = _hypers_discharge s)
      /\ (fst (fst out) <> Ok tt -> targets (snd out) = [])).
Proof.
  split; cbv zeta.
  - destruct (_hypers_charge s) as [|h0 rest] eqn:E.
    { rewrite upd_charging_empty by assumption. cbn. repeat split; congruence. }
    destruct (Z.lt_ge_cases total 400) as [H|H].
    + rewrite (upd_charging_single total s h0 rest E H). cbn [fst snd targets].
      unfold stop. rewrite targets_map. repeat split; congruence.
    + rewrite (upd_charging_split total s h0 rest E H).
      destruct (int_div_len total (h0 :: rest)); cbn [fst snd targets].
      * rewrite (targets_map 1 a 0 (h0 :: rest)). repeat split; congruence.
      * repeat split; congruence.
  - destruct (_hypers_discharge s) as [|h0 rest] eqn:E.
    { rewrite upd_discharging_empty by assumption. cbn. repeat split; congruence. }
    destruct (Z.lt_ge_cases total 400) as [H|H].
    + rewrite (upd_discharging_single total s h0 rest E H). cbn [fst snd targets].
      unfold stop. rewrite targets_map. repeat split; congruence.
    + rewrite (upd_discharging_split total s h0 rest E H).
      destruct (int_div_len total (h0 :: rest)); cbn [fst snd targets].
      * rewrite (targets_map 0 0 a (h0 :: rest)). repeat split; congruence.
      * repeat split; congruence.
Qed.

(** Two candidates and 1000 W: the charge allocation returns and has
    commanded both, in rank order. *)
Lemma commands_follow_the_ranking_witness :
  let s := mkManager ["h1"; "h2"]%string "consumed" "produced" 0 2
             ["h2"; "h1"]%string [] 2400 0 in
  targets (snd (upd_charging 1000 s)) = ["h2"; "h1"]%string.
Proof.
  intros s.
  exact (proj1 (proj2 (proj1 (commands_follow_the_ranking s 1000))) eq_refl).
Defined.

Lemma Forall_map_command (P : effect -> Prop) (a b c : Z) (l : list string) :
  (forall h, P (Command h a b c)) -> Forall P (map (fun h => Command h a b c) l).
Proof. intros H. apply Forall_map. apply Forall_forall. intros h _. apply H. Qed.

(** X10: the two directions never mix.  No command of the discharge
    allocation has the charge flag set or asks for charge power, and no
    command of the charge allocation asks for discharge power, whatever the
    target and the ranking. *)
Theorem allocations_keep_their_direction (s : ZendureManager) (total : Z) :
  Forall discharge_only (snd (upd_discharging total s))
  /\ Forall charge_only (snd (upd_charging total s)).
Proof.
  split.
  - destruct (_hypers_discharge s) as [|h0 rest] eqn:E.
    { rewrite upd_discharging_empty by assumption. repeat constructor. }
    destruct (Z.lt_ge_cases total 400) as [H|H].
    + rewrite (upd_discharging_single total s h0 rest E H). cbn [snd].
      constructor; [exact I|]. constructor; [split; reflexivity|].
      apply Forall_map_command. intros h. split; reflexivity.
    + rewrite (upd_discharging_split total s h0 rest E H).
      destruct (int_div_len total (h0 :: rest)); cbn [snd].
      * constructor; [exact I|]. apply Forall_map_command. intros h. split; reflexivity.
      * repeat constructor.
  - destruct (_hypers_charge s) as [|h0 rest] eqn:E.
    { rewrite upd_charging_empty by assumption. repeat constructor. }
    destruct (Z.lt_ge_cases total 400) as [H|H].
    + rewrite (upd_charging_single total s h0 rest E H). cbn [snd].
      constructor; [exact I|]. constructor; [reflexivity|].
      apply Forall_map_command. intros h. reflexivity.
    + rewrite (upd_charging_split total s h0 rest E H).
      destruct (int_div_len total (h0 :: rest)); cbn [snd].
      * constructor; [exact I|]. apply Forall_map_command. intros h. reflexivity.
      * repeat constructor.
Qed.

(** ** Mode changes and the ranked fleet *)

(** X11: a mode change touches the mode only.  Leaving smart matching and
    coming back gives the very same manager, ranked lists, limits and
    deadline included, so a ranking made before the excursion is used again
    while it is fresh; the way out sends the stop commands, the way back
    sends nothing. *)
Theorem mode_round_trip (s : ZendureManager) (o : Z) :
  operation s = 2 -> o <> 2 ->
  run [SetOperation o; SetOperation 2] s = (s, map stop (hypers s))
  /\ forall t, recomputes t (fst (run [SetOperation o; SetOperation 2] s)) = recomputes t s.
Proof.
  intros Hop Ho.
  assert (E : run [SetOperation o; SetOperation 2] s = (s, map stop (hypers s))).
  { cbn [run exec]. rewrite update_operation_stops by assumption.
    rewrite update_operation_smart. rewrite !app_nil_r.
    destruct s; cbn in *. subst. reflexivity. }
  split; [exact E|]. intros t. rewrite E. reflexivity.
Qed.

Lemma mode_round_trip_witness :
  let s := mkManager ["h1"; "h2"]%string "consumed" "produced" 300000000 2
             ["h1"]%string ["h2"; "h1"]%string 1200 1600 in
  run [SetOperation 0; SetOperation 2] s = (s, [Command "h1" 0 0 0; Command "h2" 0 0 0]).
Proof.
  intros s. apply (proj1 (mode_round_trip s 0 eq_refl ltac:(discriminate))).
Defined.

(** ** A fleet with nothing to charge *)





(** ** Inbound messages for a device of the catalog *)

Section Dispatch.

Variable handle_message : Hyper2000 -> string -> json -> result unit * Hyper2000.

Lemma existsb_eqb_in (k : string) (l : list string) :
  existsb (String.eqb k) l = true <-> In k l.
Proof.
  rewrite existsb_exists. split.
  - intros (x & Hin & Hx). apply String.eqb_eq in Hx. subst. assumption.
  - intros Hin. exists k. split; [assumption|apply String.eqb_refl].
Qed.

Lemma on_message_known (msg : Message) (fields : list (string * json)) (k : string)
  (w : ZendureManager * heap) :
  payload msg = Some (JObject fields) ->
  assoc "deviceId" fields = Some (JString k) -> k <> EmptyString ->
  In k (hypers (fst w)) ->
  on_message handle_message msg w
  = (Ok tt,
     (fst w, set_device k (snd (handle_message (snd w k) (topic msg) (JObject fields)))
               (snd w)),
     match fst (handle_message (snd w k) (topic msg) (JObject fields)) with
     | Ok _ => []
     | Raise e => [Log (Error e)]
     end).
Proof.
  intros E Ev Hk Hin. unfold on_message, try_except, json_loads.
  rewrite E, bind_lift_ok. cbn [payload_get]. rewrite Ev, bind_lift_ok.
  cbn [json_truthy]. apply String.eqb_neq in Hk. rewrite Hk. cbn [negb].
  rewrite bind_get. cbn [hypers_get]. rewrite bind_lift_ok.
  pose proof (proj2 (existsb_eqb_in k (hypers (fst w))) Hin) as Hex.
  match goal with
  | |- context [existsb ?f ?l] => destruct (existsb f l) eqn:Hex'
  end; [|exact (False_ind _ (eq_true_false_abs _ Hex Hex'))].
  match goal with
  | |- context [handle_message ?a ?b ?c] =>
      change (handle_message a b c)
        with (handle_message (snd w k) (topic msg) (JObject fields))
  end.
  destruct (handle_message (snd w k) (topic msg) (JObject fields)) as [[[]|e] d];
    cbv beta iota; rewrite bind_modify; reflexivity.
Qed.


(** X14: no inbound message, whatever its payload and whatever the devices'
    handlers do, makes [on_message] raise, changes the manager or sends a
    command; it changes at most one device, a device of the catalog, and
    writes at most one record to the log. *)
Theorem on_message_is_contained (msg : Message) (s : ZendureManager) (sigma : heap) :
  exists sigma' log,
    on_message handle_message msg (s, sigma) = (Ok tt, (s, sigma'), log)
    /\ quiet log /\ (List.length log <= 1)%nat
    /\ (sigma' = sigma
        \/ exists k d, In k (hypers s) /\ sigma' = set_device k d sigma).
Proof.
  assert (Hsame : forall log, quiet log -> (List.length log <= 1)%nat ->
            forall out, out = (Ok tt, (s, sigma), log) ->
            exists sigma' log',
              out = (Ok tt, (s, sigma'), log')
              /\ quiet log' /\ (List.length log' <= 1)%nat
              /\ (sigma' = sigma
                  \/ exists k d, In k (hypers s) /\ sigma' = set_device k d sigma)).
  { intros log Hq Hl out ->. exists sigma, log. repeat split; auto. }
  assert (Hq1 : forall e, quiet [Log (Error e)]) by (intros; apply quiet_log, quiet_nil).
  destruct (payload msg) as [j|] eqn:E.
  2:{ apply (Hsame [Log (Error ValueError)]); [apply Hq1|cbn; lia|].
      apply on_message_unparseable. assumption. }
  assert (Hsilent : names_no_device s j ->
            exists sigma' log',
              on_message handle_message msg (s, sigma) = (Ok tt, (s, sigma'), log')
              /\ quiet log' /\ (List.length log' <= 1)%nat
              /\ (sigma' = sigma
                  \/ exists k d, In k (hypers s) /\ sigma' = set_device k d sigma)).
  { intros Hj. unfold on_message, try_except, json_loads. rewrite E, bind_lift_ok.
    destruct j as [|b|q|str|l|fields];
      try (cbn [payload_get]; rewrite bind_lift_raise;
           apply (Hsame [Log (Error AttributeError)]); [apply Hq1|cbn; lia|reflexivity]).
    cbn [payload_get names_no_device] in *. rewrite bind_lift_ok.
    destruct (assoc "deviceId" fields) as [v|];
      [|apply (Hsame []); [apply quiet_nil|cbn; lia|reflexivity]].
    destruct (json_truthy v) eqn:Etruthy;
      [|apply (Hsame []); [apply quiet_nil|cbn; lia|reflexivity]].
    cbn [negb]. rewrite bind_get.
    destruct v as [|b|q|k|l|l]; cbn [hypers_get fst];
      try (rewrite bind_lift_ok; apply (Hsame []); [apply quiet_nil|cbn; lia|reflexivity]);
      try (rewrite bind_lift_raise;
           apply (Hsame [Log (Error TypeError)]); [apply Hq1|cbn; lia|reflexivity]).
    rewrite bind_lift_ok.
    match goal with
    | |- context [existsb ?f ?l] => destruct (existsb f l) eqn:Hex
    end.
    - apply (existsb_eqb_in k (hypers s)) in Hex. contradiction.
    - apply (Hsame []); [apply quiet_nil|cbn; lia|reflexivity]. }
  destruct j as [|b|q|str|l|fields]; try (apply Hsilent; exact I).
  destruct (assoc "deviceId" fields) as [v|] eqn:Ev.
  2:{ apply Hsilent. cbn. rewrite Ev. exact I. }
  destruct v as [|b|q|k|l|l]; try (apply Hsilent; cbn; rewrite Ev; exact I).
  destruct (existsb (String.eqb k) (hypers s)) eqn:Hex.
  2:{ apply Hsilent. cbn. rewrite Ev. intros Hin.
      apply existsb_eqb_in in Hin. congruence. }
  apply existsb_eqb_in in Hex.
  destruct (String.eqb_spec k EmptyString) as [->|Hk].
  - unfold on_message, try_except, json_loads. rewrite E, bind_lift_ok.
    cbn [payload_get]. rewrite Ev, bind_lift_ok.
    apply (Hsame []); [apply quiet_nil|cbn; lia|reflexivity].
  - rewrite (on_message_known msg fields k (s, sigma) E Ev Hk Hex). cbn [fst snd].
    do 2 eexists. split; [reflexivity|]. split; [|split].
    + destruct (fst (handle_message _ _ _)); [apply quiet_nil|apply Hq1].
    + destruct (fst (handle_message _ _ _)); cbn; lia.
    + right. do 2 eexists. split; [exact Hex|reflexivity].
Qed.

End Dispatch.


(** ** Sensor values ([sensor.py]) *)

Lemma update_value_templateless (self : ZendureSensor) (v : pyvalue) :
  _value_template self = None ->
  _value_template (fst (update_value self v)) = None
  /\ hass (fst (update_value self v)) = hass self
  /\ (_attr_native_value (fst (update_value self v)) = _attr_native_value self
      \/ exists z, _attr_native_value (fst (update_value self v)) = PyInt z).
Proof.
  intros Ht. unfold update_value. rewrite Ht.
  destruct (int_of_number v) as [[z|e]|]; cbn; repeat split; eauto.
Qed.

(** X15: a sensor without template holds nothing or an integer, and once it
    holds an integer it always does: no later value, of whatever kind, makes
    its state unknown again. *)
Theorem templateless_sensor_stays_known (self : ZendureSensor) (values : list pyvalue) :
  _value_template self = None ->
  (_attr_native_value self = PyNone \/ exists z, _attr_native_value self = PyInt z) ->
  let self' := update_values self values in
  (_attr_native_value self' = PyNone \/ exists z, _attr_native_value self' = PyInt z)
  /\ (sensor_state self <> None -> sensor_state self' <> None).
Proof.
  revert self. induction values as [|v t IH]; intros self Ht Hn; cbn [update_values].
  - split; [assumption|auto].
  - destruct (update_value_templateless self v Ht) as (Ht' & _ & Hv).
    assert (Hn' : _attr_native_value (fst (update_value self v)) = PyNone
                  \/ exists z, _attr_native_value (fst (update_value self v)) = PyInt z).
    { destruct Hv as [->|Hz]; [assumption|right; assumption]. }
    destruct (IH _ Ht' Hn') as (H1 & H2). split; [assumption|].
    intros Hk. apply H2. unfold sensor_state in *.
    destruct Hv as [->|(z & ->)]; [assumption|discriminate].
Qed.

Lemma templateless_sensor_stays_known_witness :
  sensor_state (update_values (new_sensor None)
                  [PyInt 55; PyStr "offline"; PyNone; PyFloat NaN]) <> None.
Proof.
  assert (H0 : sensor_state (fst (update_value (new_sensor None) (PyInt 55))) <> None)
    by discriminate.
  apply (proj2 (templateless_sensor_stays_known
                  (fst (update_value (new_sensor None) (PyInt 55)))
                  [PyStr "offline"; PyNone; PyFloat NaN] eq_refl
                  (or_intror (ex_intro _ 55 eq_refl)))).
  exact H0.
Defined.

(** X16: a sensor without template takes numbers only.  Values that are
    [None], strings or other objects, a number written as a string included,
    leave it exactly as it was, schedule no refresh and log nothing, however
    many of them arrive. *)
Theorem non_numbers_are_dropped (self : ZendureSensor) (values : list pyvalue) :
  _value_template self = None ->
  (forall v, In v values -> int_of_number v = None) ->
  update_values self values = self
  /\ forall v, In v values -> update_value self v = (self, []).
Proof.
  intros Ht Hvs.
  assert (Hone : forall v, In v values -> update_value self v = (self, [])).
  { intros v Hin. unfold update_value. rewrite Ht, (Hvs v Hin). reflexivity. }
  split; [|assumption].
  induction values as [|v t IH]; [reflexivity|].
  cbn [update_values]. rewrite (Hone v (or_introl eq_refl)). cbn [fst].
  apply IH; intros x Hx; [apply Hvs|apply Hone]; right; assumption.
Qed.

Lemma non_numbers_are_dropped_witness :
  update_values (new_sensor None) [PyStr "55"; PyNone; PyObject] = new_sensor None.
Proof.
  refine (proj1 (non_numbers_are_dropped (new_sensor None) _ eq_refl _)).
  intros v [<-|[<-|[<-|[]]]]; reflexivity.
Defined.

Lemma quot_truncates (num : Z) (den : positive) :
  (0 <= num -> Z.quot num (Zpos den) * Zpos den <= num
               /\ num < (Z.quot num (Zpos den) + 1) * Zpos den)
  /\ (num <= 0 -> (Z.quot num (Zpos den) - 1) * Zpos den < num
                  /\ num <= Z.quot num (Zpos den) * Zpos den).
Proof.
  pose proof (Z.quot_rem' num (Zpos den)) as E.
  split; intros H.
  - pose proof (Z.rem_bound_pos num (Zpos den) H ltac:(lia)). lia.
  - pose proof (Z.rem_bound_pos_neg num (Zpos den) ltac:(lia) H). lia.
Qed.

(** X17: what a sensor without template stores for a number.  An [int] is
    stored as it is and read back as the state; [True] and [False] are
    stored as 1 and 0; a finite [float] is cut toward zero, the stored integer
    lying between zero and the value and less than one away from it; an
    infinity or a NaN is not stored, the sensor keeps its value and the
    exception is logged. *)
Theorem numbers_are_stored_as_integers (self : ZendureSensor) :
  _value_template self = None ->
  (forall z, sensor_state (fst (update_value self (PyInt z))) = Some z)
  /\ (forall b, sensor_state (fst (update_value self (PyBool b)))
                = Some (if b then 1 else 0))
  /\ (forall q, exists z,
        sensor_state (fst (update_value self (PyFloat (Finite q)))) = Some z
        /\ ((0 <= q)%Q -> (inject_Z z <= q)%Q /\ (q < inject_Z (z + 1))%Q)
        /\ ((q <= 0)%Q -> (inject_Z (z - 1) < q)%Q /\ (q <= inject_Z z)%Q))
  /\ update_value self (PyFloat Inf) = (self, [LogException OverflowError])
  /\ update_value self (PyFloat NaN) = (self, [LogException ValueError]).
Proof.
  intros Ht. unfold update_value. rewrite Ht. cbn [int_of_number].
  split; [reflexivity|]. split; [reflexivity|]. split; [|split; reflexivity].
  intros [num den]. eexists. split; [reflexivity|].
  cbn [Qnum Qden]. unfold Qle, Qlt. cbn [Qnum Qden inject_Z].
  pose proof (quot_truncates num den) as (Hpos & Hneg).
  split; intros H.
  - destruct (Hpos ltac:(lia)). lia.
  - destruct (Hneg ltac:(lia)). lia.
Qed.

Lemma numbers_are_stored_as_integers_witness :
  sensor_state (fst (update_value (new_sensor None) (PyFloat (Finite (559 # 10))))) = Some 55
  /\ sensor_state (fst (update_value (new_sensor None) (PyFloat (Finite (-5 # 10))))) = Some 0
  /\ sensor_state (fst (update_value (new_sensor None) (PyInt 55))) = Some 55.
Proof.
  destruct (numbers_are_stored_as_integers (new_sensor None) eq_refl) as (Hint & _).
  split; [reflexivity|split; [reflexivity|apply Hint]].
Defined.

(** ** The poll ([_refresh_data]) *)

Section Transport.

Context {C : Type}.
Variable cl : Client C.
Variable topic_read : string -> string.


Lemma publish_each_all (ids : list string) (c : C) :
  (forall c' t p, fst (publish cl c' t p) = Ok tt) ->
  fst (fst (publish_each cl topic_read ids c)) = Ok tt
  /\ snd (publish_each cl topic_read ids c) = map (poll topic_read) ids.
Proof.
  intros Hok. revert c. induction ids as [|h t IH]; intros c; cbn [publish_each].
  - split; reflexivity.
  - pose proof (Hok c (topic_read h) get_all) as H.
    destruct (publish cl c (topic_read h) get_all) as [[[]|e] c1]; [|discriminate].
    destruct (IH c1) as (Hr & Hw).
    destruct (publish_each cl topic_read t c1) as [[r c2] w]. cbn [fst snd] in *.
    subst. split; reflexivity.
Qed.

(** X18: with a client whose publish calls return, one tick polls every
    device of the catalog once, in catalog order, with the same fixed payload
    on the device's read topic, and then schedules the next tick; without a
    client it publishes nothing and still schedules the next tick. *)
Theorem poll_reaches_every_device (s : ZendureManager) (c : C) :
  (forall c' t p, fst (publish cl c' t p) = Ok tt) ->
  snd (_refresh_data cl topic_read (Some c) s)
  = InfoRefresh :: map (poll topic_read) (hypers s) ++ [ScheduleRefresh]
  /\ _refresh_data cl topic_read None s = (None, [InfoRefresh; ScheduleRefresh]).
Proof.
  intros Hok. split; [|reflexivity].
  unfold _refresh_data.
  destruct (publish_each_all (hypers s) c Hok) as (Hr & Hw).
  destruct (publish_each cl topic_read (hypers s) c) as [[r c1] w]. cbn [fst snd] in *.
  subst. reflexivity.
Qed.


End Transport.

(** A client that publishes everything. *)
Lemma poll_reaches_every_device_witness :
  let cl : Client nat :=
    mkClient nat (fun n _ _ => (Ok tt, S n)) (fun n _ => (Ok tt, S n)) in
  let topic_read := fun h => ("iot/73bkTV/" ++ h ++ "/properties/read")%string in
  let s := init ["h1"; "h2"]%string "consumed" "produced" 0 in
  _refresh_data cl topic_read (Some 0%nat) s
  = (Some 2%nat,
     [InfoRefresh;
      Publish "iot/73bkTV/h1/properties/read" get_all;
      Publish "iot/73bkTV/h2/properties/read" get_all;
      ScheduleRefresh]).
Proof.
  intros cl topic_read s.
  assert (Hok : forall (c' : nat) t p, fst (publish cl c' t p) = Ok tt) by reflexivity.
  pose proof (proj1 (poll_reaches_every_device cl topic_read s 0%nat Hok)) as H.
  destruct (_refresh_data cl topic_read (Some 0%nat) s) as [m w] eqn:E.
  cbn [snd] in H. subst w. vm_compute in E. inversion E; subst. reflexivity.
Defined.

(** ** Start-up ([initialize]) *)

Section Startup.

Context {C : Type}.
Variable cl : Client C.
Variable api : Api C.
Variables prodkey hid : string -> string.

Lemma subscribe_each_all (ids : list string) (c : C) :
  (forall h, In h ids -> create_sensors api h = Ok tt) ->
  (forall c' t, fst (subscribe cl c' t) = Ok tt) ->
  fst (fst (subscribe_each cl api prodkey hid ids c)) = Ok tt
  /\ snd (subscribe_each cl api prodkey hid ids c) = flat_map (subscriptions prodkey hid) ids.
Proof.
  intros Hcs Hsub. revert c. induction ids as [|h t IH]; intros c; cbn [subscribe_each].
  - split; reflexivity.
  - rewrite (Hcs h (or_introl eq_refl)).
    pose proof (Hsub c (device_topic prodkey hid h)) as H1.
    destruct (subscribe cl c (device_topic prodkey hid h)) as [[[]|e] c1]; [|discriminate].
    pose proof (Hsub c1 (iot_topic prodkey hid h)) as H2.
    destruct (subscribe cl c1 (iot_topic prodkey hid h)) as [[[]|e] c2]; [|discriminate].
    destruct (IH (fun k H => Hcs k (or_intror H)) c2) as (Hr & Hw).
    destruct (subscribe_each cl api prodkey hid t c2) as [[r c3] w]. cbn [fst snd] in *.
    subst. split; reflexivity.
Qed.


(** X21: when nothing fails, [initialize] takes the catalog the API returns
    and, for every device in catalog order, creates its sensors and
    subscribes to its two topic families, first the plain one, then the one
    under [iot]; it then registers the mode selector and returns [True].
    That is two subscriptions per device. *)
Theorem initialize_subscribes_twice_per_device (_mqtt : option C) (s : ZendureManager)
  (ids : list string) (c : C) :
  connect api = Ok true -> get_hypers api = Ok ids -> get_mqtt api = Ok c ->
  (forall h, In h ids -> create_sensors api h = Ok tt) ->
  (forall c' t, fst (subscribe cl c' t) = Ok tt) ->
  add_selects api = Ok tt ->
  let out := initialize cl api prodkey hid _mqtt s in
  fst (fst (fst out)) = true
  /\ snd (fst (fst out)) = set_hypers ids s
  /\ snd out = flat_map (subscriptions prodkey hid) ids
               ++ [InfoFound (List.length ids); InfoAddingSensors; AddSelects]
  /\ List.length (filter (fun x => match x with Subscribe _ => true | _ => false end)
                    (snd out))
     = (2 * List.length ids)%nat.
Proof.
  intros Hc Hh Hm Hcs Hsub Hsel. cbv zeta. unfold initialize.
  rewrite Hc, Hh, Hm.
  destruct (subscribe_each_all ids c Hcs Hsub) as (Hr & Hw).
  destruct (subscribe_each cl api prodkey hid ids c) as [[r c1] w].
  cbn [fst snd] in *. subst. rewrite Hsel. cbn [fst snd].
  rewrite <- app_assoc. cbn [app].
  repeat split.
  rewrite filter_app, length_app. cbn [filter List.length].
  clear. induction ids as [|h t IH]; [reflexivity|].
  cbn [flat_map subscriptions app filter List.length] in *. lia.
Qed.

End Startup.


Lemma initialize_subscribes_twice_per_device_witness :
  let cl : Client nat :=
    mkClient nat (fun n _ _ => (Ok tt, S n)) (fun n _ => (Ok tt, S n)) in
  let api : Api nat :=
    mkApi nat (Ok true) (Ok ["h1"]%string) (Ok 0%nat) (fun _ => Ok tt) (Ok tt) in
  let s := init [] "consumed" "produced" 0 in
  snd (initialize cl api (fun _ => "73bkTV"%string) (fun h => h) None s)
  = [CreateSensors "h1"; Subscribe "/73bkTV/h1/#"; Subscribe "iot/73bkTV/h1/#";
     InfoFound 1; InfoAddingSensors; AddSelects].
Proof.
  intros cl api s.
  assert (Hcs : forall h, In h ["h1"%string] -> create_sensors api h = Ok tt)
    by (intros h _; reflexivity).
  assert (Hsub : forall (c' : nat) t, fst (subscribe cl c' t) = Ok tt)
    by (intros c' t; reflexivity).
  exact (proj1 (proj2 (proj2
    (initialize_subscribes_twice_per_device cl api (fun _ => "73bkTV"%string)
       (fun h => h) None s ["h1"%string] 0%nat eq_refl eq_refl eq_refl Hcs Hsub
       eq_refl)))).
Defined.

(** ** Start-up followed by a poll *)

Section StartupThenPoll.

Context {C : Type}.
Variable cl : Client C.
Variable api : Api C.
Variables prodkey hid topic_read : string -> string.



End StartupThenPoll.


(** ** The deadline written by the constructor *)

Lemma recompute_overwrites_deadline (sigma : heap) (now x : Z) (s : ZendureManager) :
  recompute sigma now (set_next_update x s) = recompute sigma now s.
Proof. rewrite !recompute_cases. destruct s; reflexivity. Qed.

Lemma recomputes_empty_charge (t x : Z) (s : ZendureManager) :
  _hypers_charge s = [] ->
  recomputes t (set_next_update x s) = recomputes t s.
Proof.
  intros Hc. unfold recomputes.
  change (operation (set_next_update x s)) with (operation s).
  destruct (operation s =? 2); [|reflexivity]. cbn [andb].
  transitivity true; [|symmetry]; apply stale_spec; left;
    [destruct s; exact Hc|exact Hc].
Qed.

Lemma exec_same_but_deadline (c : call) (s s' : ZendureManager) :
  same_but_deadline s s' ->
  fst (fst (exec c s')) = fst (fst (exec c s))
  /\ snd (exec c s') = snd (exec c s)
  /\ same_but_deadline (snd (fst (exec c s))) (snd (fst (exec c s'))).
Proof.
  intros [->|x Hc ->].
  { repeat split. apply sbd_same. reflexivity. }
  destruct c as [sigma t_test t_set event|o]; cbn [exec].
  - rewrite !handler_outcome, !body_dispatch.
    rewrite (recomputes_empty_charge t_test x s Hc).
    change (operation (set_next_update x s)) with (operation s).
    destruct (recomputes t_test s) eqn:Hr.
    + assert (E : (recompute sigma t_set ;; rebalance sigma event) (set_next_update x s)
                  = (recompute sigma t_set ;; rebalance sigma event) s).
      { unfold bind. rewrite recompute_overwrites_deadline. reflexivity. }
      rewrite E. repeat split. apply sbd_same. reflexivity.
    + unfold recomputes in Hr.
      destruct (operation s =? 2) eqn:Hop.
      * cbn [andb] in Hr.
        assert (stale t_test s = true) by (apply stale_spec; left; exact Hc).
        congruence.
      * cbn. repeat split. apply (sbd_deadline _ _ x); [exact Hc|reflexivity].
  - destruct (Z.eq_dec o 2) as [->|Ho].
    + rewrite !update_operation_smart. cbn [fst snd]. repeat split.
      apply (sbd_deadline _ _ x); [destruct s; exact Hc|destruct s; reflexivity].
    + rewrite !update_operation_stops by assumption. cbn [fst snd].
      change (hypers (set_next_update x s)) with (hypers s). repeat split.
      apply (sbd_deadline _ _ x); [destruct s; exact Hc|destruct s; reflexivity].
Qed.

Lemma run_same_but_deadline (cs : list call) (s s' : ZendureManager) :
  same_but_deadline s s' ->
  snd (run cs s') = snd (run cs s)
  /\ same_but_deadline (fst (run cs s)) (fst (run cs s')).
Proof.
  revert s s'. induction cs as [|c t IH]; intros s s' H; cbn [run].
  - split; [reflexivity|exact H].
  - destruct (exec_same_but_deadline c s s' H) as (_ & Hw & Hs).
    destruct (exec c s) as [[r1 s1] w1]. destruct (exec c s') as [[r1' s1'] w1'].
    cbn [fst snd] in Hw, Hs. subst w1'.
    destruct (IH s1 s1' Hs) as (Hw2 & Hs2).
    destruct (run t s1) as [s2 w2]. destruct (run t s1') as [s2' w2'].
    cbn [fst snd] in *. subst w2'. split; [reflexivity|exact Hs2].
Qed.

(** X23: the deadline the constructor writes, five minutes after
    construction, plays no part in what the manager does.  Two managers
    constructed at different times and given the same calls log the same
    records and send the same commands, and they end in the same state but
    for the deadline; they end in the very same state as soon as one ranking
    has filled the charge list. *)
Theorem constructor_deadline_is_inert (ids : list string) (consumed produced : string)
  (now now' : Z) (cs : list call) :
  let a := run cs (init ids consumed produced now) in
  let b := run cs (init ids consumed produced now') in
  snd b = snd a
  /\ set_next_update 0 (fst b) = set_next_update 0 (fst a)
  /\ (_hypers_charge (fst a) <> [] -> fst b = fst a).
Proof.
  cbv zeta.
  destruct (run_same_but_deadline cs (init ids consumed produced now)
              (init ids consumed produced now')) as (Hw & Hs).
  { apply (sbd_deadline _ _ (now' + five_minutes)); reflexivity. }
  split; [exact Hw|].
  destruct Hs as [->|x Hc ->].
  - split; [reflexivity|intros _; reflexivity].
  - split; [destruct (fst (run cs (init ids consumed produced now))); reflexivity|].
    intros Hne; contradiction.
Qed.

(** Constructed at 0 or at one hour: after the switch to smart matching and
    one signal that finds a device to charge, the two managers are the
    same. *)
Lemma constructor_deadline_is_inert_witness :
  let sigma : heap := fun _ => mkHyper2000 (Some 50) (Some 10) (Some 100)
                                 (Some 1200) (Some 1200) (Some 0) (Some 0) in
  let event := mkEvent "consumed" (Some (Number (50 # 1))) in
  let cs := [SetOperation 2; PowerSignal sigma 1000000 1000001 event] in
  fst (run cs (init ["h1"]%string "consumed" "produced" 3600000000))
  = fst (run cs (init ["h1"]%string "consumed" "produced" 0)).
Proof.
  intros sigma event cs.
  apply (proj2 (proj2 (constructor_deadline_is_inert ["h1"]%string "consumed" "produced"
                         0 3600000000 cs))).
  vm_compute. discriminate.
Defined.
